(** * Incident manager: a shallow embedding of [src/incident_manager.py]

    The program keeps two SQLite tables, [incidents] and [alerts], and offers
    the methods of [IncidentManager] on top of them.  Every method opens a
    connection, runs one or two statements, commits and closes, so a method
    is a function from the state of the database (and of the environment it
    reads: the wall clock and the uuid generator) to a result and a new
    state.

    Conventions of the embedding.
    - A table with a [PRIMARY KEY] column is a finite map from the key to the
      other columns of the row.
    - A [datetime] is the number of microseconds between 1970-01-01T00:00:00
      and the naive local time it denotes.  The program stores
      [datetime.now().isoformat()]; for the four-digit years Python supports
      that text is an injective rendering of the datetime and the byte order
      of two such texts is the order of the datetimes, so the columns
      [created_at], [resolved_at] and [fired_at] hold the datetime itself.
    - [json.dumps] followed by [json.loads] is the identity on the lists the
      program stores ([services], a list of strings, and [timeline], a list
      of three-field dictionaries), so the two columns hold these lists.
    - SQLite's [REAL] results are rationals. *)

From Stdlib Require Import ZArith QArith Lia.
From stdpp Require Import gmap strings list fin_maps sorting.

#[local] Open Scope Z_scope.
#[local] Open Scope string_scope.
#[local] Open Scope list_scope.

(** ** Data model *)

Abbreviation datetime := Z (only parsing).

(** [TEAM], line 18. *)
Definition TEAM : list string :=
  ["alexa"; "alice"; "octavia"; "aria"; "shellfish"].

(** One dictionary of the [timeline] list, as built at lines 156-160. *)
Record TimelineEvent : Type := mkEvent {
  timestamp : datetime;
  event : string;
  author : string
}.

(** The dataclass [Incident], lines 32-44. *)
Module Incident.
Record t : Type := mk {
  id : string;
  title : string;
  severity : string;
  status : string;
  assignee : string;
  services : list string;
  timeline : list TimelineEvent;
  created_at : datetime;
  resolved_at : option datetime;
  postmortem : string
}.
End Incident.

(** A row of the table [incidents] (lines 60-73) without its key [id].
    [resolved_at] and [postmortem] are the two columns that the [INSERT] of
    [create_incident] leaves [NULL]. *)
Record Row : Type := mkRow {
  col_title : string;
  col_severity : string;
  col_status : string;
  col_assignee : string;
  col_services : list string;
  col_timeline : list TimelineEvent;
  col_created_at : datetime;
  col_resolved_at : option datetime;
  col_postmortem : option string
}.

(** A row of the table [alerts] (lines 75-85) without its key [id]. *)
Record AlertRow : Type := mkAlertRow {
  alert_source : string;
  alert_message : string;
  alert_severity : string;
  alert_fired_at : datetime;
  alert_incident_id : option string
}.

(** The state a method runs in: the two tables, and how many times the clock
    and the uuid generator have been read so far. *)
Record World : Type := mkWorld {
  incidents : gmap string Row;
  alerts : gmap string AlertRow;
  clock_reads : nat;
  uuid_draws : nat
}.

Definition init_world : World := mkWorld ∅ ∅ 0 0.

(** ** Exceptions and the monad of methods *)

(** [sqlite3.IntegrityError] is what an [INSERT] with a key already in the
    table raises; [IndexError] and [ZeroDivisionError] are what
    [TEAM[day_of_week % len(TEAM)]] could raise. *)
Inductive Exn : Type := IntegrityError | IndexError | ZeroDivisionError.

Inductive Res (A : Type) : Type :=
| Return (a : A)
| Raise (e : Exn).
Arguments Return {A} a.
Arguments Raise {A} e.

(** A method takes the state and yields a result or an exception together
    with the state it leaves behind; a statement that raises changes
    nothing, what was committed before it stays. *)
Definition M (A : Type) : Type := World → Res A * World.

#[global] Instance M_ret : MRet M := λ A a w, (Return a, w).
#[global] Instance M_bind : MBind M :=
  λ A B k m w, match m w with
               | (Return a, w') => k a w'
               | (Raise e, w') => (Raise e, w')
               end.
Definition lift_res {A} (r : Res A) : M A := λ w, (r, w).

(** ** SQL statements used by the program *)

(** [INSERT INTO incidents (id, title, ..., created_at) VALUES (...)]. *)
Definition insert_incident (k : string) (r : Row) : M unit :=
  λ w, match incidents w !! k with
       | Some _ => (Raise IntegrityError, w)
       | None =>
         (Return tt,
          mkWorld (<[k := r]> (incidents w)) (alerts w)
                  (clock_reads w) (uuid_draws w))
       end.

(** [INSERT INTO alerts (...) VALUES (...)]. *)
Definition insert_alert (k : string) (a : AlertRow) : M unit :=
  λ w, match alerts w !! k with
       | Some _ => (Raise IntegrityError, w)
       | None =>
         (Return tt,
          mkWorld (incidents w) (<[k := a]> (alerts w))
                  (clock_reads w) (uuid_draws w))
       end.

(** [UPDATE incidents SET ... WHERE id = ?], with the assignment of the
    [SET] clause given as a function on rows; the result is
    [cursor.rowcount]. *)
Definition update_incident (k : string) (set : Row → Row) : M nat :=
  λ w, match incidents w !! k with
       | Some r =>
         (Return 1%nat,
          mkWorld (<[k := set r]> (incidents w)) (alerts w)
                  (clock_reads w) (uuid_draws w))
       | None => (Return 0%nat, w)
       end.

(** [SELECT ... FROM incidents WHERE id = ?] followed by
    [cursor.fetchone()]. *)
Definition select_incident (k : string) : M (option Row) :=
  λ w, (Return (incidents w !! k), w).

(** The [SET] clauses of the four [UPDATE] statements. *)
Definition set_assignee (a : string) (r : Row) : Row :=
  mkRow (col_title r) (col_severity r) (col_status r) a (col_services r)
        (col_timeline r) (col_created_at r) (col_resolved_at r)
        (col_postmortem r).

Definition set_status (s : string) (r : Row) : Row :=
  mkRow (col_title r) (col_severity r) s (col_assignee r) (col_services r)
        (col_timeline r) (col_created_at r) (col_resolved_at r)
        (col_postmortem r).

Definition set_timeline (t : list TimelineEvent) (r : Row) : Row :=
  mkRow (col_title r) (col_severity r) (col_status r) (col_assignee r)
        (col_services r) t (col_created_at r) (col_resolved_at r)
        (col_postmortem r).

Definition set_status_resolved_at (s : string) (t : datetime) (r : Row) : Row :=
  mkRow (col_title r) (col_severity r) s (col_assignee r) (col_services r)
        (col_timeline r) (col_created_at r) (Some t) (col_postmortem r).

(** The ten-column [SELECT] list turned into an [Incident], as at lines
    219-224 and 309-314; [row[9] or ""] maps [NULL] to the empty string. *)
Definition to_incident (k : string) (r : Row) : Incident.t :=
  Incident.mk k (col_title r) (col_severity r) (col_status r)
    (col_assignee r) (col_services r) (col_timeline r) (col_created_at r)
    (col_resolved_at r)
    (default "" (col_postmortem r)).

(** ** Dates *)

Definition usec_per_day : Z := 86400000000.

(** [datetime.weekday()]: Monday is 0; 1970-01-01 was a Thursday. *)
Definition weekday (t : datetime) : Z := (t `div` usec_per_day + 3) `mod` 7.

(** The calendar day of a datetime, counted from 1970-01-01. *)
Definition day_number (t : datetime) : Z := t `div` usec_per_day.

(** SQLite's [strftime('%s', t)]: the text is parsed, the time of day is
    rounded to the millisecond (SQLite adds one half and truncates, in
    floating point; the rounding here is the exact one), and the whole
    seconds since the epoch are printed.  The text is read as it stands,
    without a time zone, so the result for a stored local time is the count
    of seconds from 1970-01-01T00:00:00 to it. *)
Definition strftime_s (t : datetime) : Z := ((t + 500) `div` 1000) `div` 1000.

(** ** A concrete environment

    Three uuid texts, and a clock that starts on Monday 2024-01-01 at
    10:00:00 and advances by one second per reading. *)
Definition demo_uuid (n : nat) : string :=
  match n with
  | 0%nat => "3f2a9c1e-5b7d-4e21-9a3c-0d4f6b8e1a27"
  | 1%nat => "a81d04c7-92e3-4f65-b1c8-7e5a2d9f0c43"
  | _ => "c05e7b92-1d4a-4c38-8f6e-2b9a7d3e5f10"
  end.

Definition demo_clock (n : nat) : datetime :=
  1704103200000000 + Z.of_nat n * 1000000.

(** The state after [create_incident("db down", "P1", ["api"])] on an empty
    database. *)
Definition demo_row : Row :=
  mkRow "db down" "P1" "new" "alexa" ["api"] [] 1704103200000000 None None.

Definition demo_created : World :=
  mkWorld {["3f2a9c1e" := demo_row]} ∅ 2 1.

(** The same state after [update_status(id, "resolved")], and after
    [resolve(id)]. *)
Definition demo_status_resolved : World :=
  mkWorld {["3f2a9c1e" := set_status "resolved" demo_row]} ∅ 2 1.

Definition demo_resolved : World :=
  mkWorld
    {["3f2a9c1e" := set_status_resolved_at "resolved" 1704103202000000 demo_row]}
    ∅ 3 1.

(** A clock that starts nine tenths of a second after 10:00:00 and advances
    by a tenth of a second per reading, and the state after
    [create_incident("db down", "P1", ["api"])] followed by [resolve] of the
    new incident under that clock. *)
Definition tenths_clock (n : nat) : datetime :=
  1704103200900000 + Z.of_nat n * 100000.

Definition tenths_row : Row :=
  mkRow "db down" "P1" "resolved" "alexa" ["api"] [] 1704103200900000
        (Some 1704103201100000) None.

Definition tenths_resolved : World :=
  mkWorld {["3f2a9c1e" := tenths_row]} ∅ 3 1.

(** ** The methods of [IncidentManager] *)

Section IncidentManager.

(** The environment: [now_at n] is what the [n]-th call of
    [datetime.now()] returns and [uuid_at n] is the text of the [n]-th
    [uuid.uuid4()]. *)
Variable now_at : nat → datetime.
Variable uuid_at : nat → string.

Definition datetime_now : M datetime :=
  λ w, (Return (now_at (clock_reads w)),
        mkWorld (incidents w) (alerts w) (S (clock_reads w)) (uuid_draws w)).

Definition uuid4 : M string :=
  λ w, (Return (uuid_at (uuid_draws w)),
        mkWorld (incidents w) (alerts w) (clock_reads w) (S (uuid_draws w))).

(** [team[day_of_week % len(team)]] on a list. *)
Definition roster_at (team : list string) (day_of_week : Z) : Res string :=
  if decide (length team = 0%nat) then Raise ZeroDivisionError
  else match team !! Z.to_nat (day_of_week `mod` Z.of_nat (length team)) with
       | Some p => Return p
       | None => Raise IndexError
       end.

(** Lines 289-293. *)
Definition oncall_schedule : M string :=
  now ← datetime_now;
  let day_of_week := weekday now in
  lift_res (roster_at TEAM day_of_week).

(** Lines 90-120.  [services or []] is the argument unless it is [None]
    (or empty). *)
Definition create_incident (title severity : string)
    (services : option (list string)) : M Incident.t :=
  u ← uuid4;
  let incident_id := String.substring 0 8 u in
  now ← datetime_now;
  assignee ← oncall_schedule;
  let services := default [] services in
  let incident :=
    Incident.mk incident_id title severity "new" assignee services [] now
                None "" in
  insert_incident (Incident.id incident)
    (mkRow (Incident.title incident) (Incident.severity incident)
           (Incident.status incident) (Incident.assignee incident)
           (Incident.services incident) (Incident.timeline incident)
           (Incident.created_at incident) None None);;
  mret incident.

(** Lines 122-129. *)
Definition assign (incident_id assignee : string) : M bool :=
  rowcount ← update_incident incident_id (set_assignee assignee);
  mret (bool_decide (0 < rowcount)%nat).

Definition valid_statuses : list string :=
  ["new"; "investigating"; "identified"; "monitoring"; "resolved"].

(** Lines 131-142. *)
Definition update_status (incident_id status : string) : M bool :=
  if decide (status ∉ valid_statuses) then mret false
  else
    rowcount ← update_incident incident_id (set_status status);
    mret (bool_decide (0 < rowcount)%nat).

(** Lines 144-166. *)
Definition add_timeline_event (incident_id event author : string) : M bool :=
  row ← select_incident incident_id;
  match row with
  | None => mret false
  | Some r =>
    let timeline := col_timeline r in
    now ← datetime_now;
    let timeline := timeline ++ [mkEvent now event author] in
    update_incident incident_id (set_timeline timeline);;
    mret true
  end.

(** [add_timeline_event] called once for each [(event, author)] of a list,
    in order, on the same incident; the results of the calls are
    collected. *)
Fixpoint add_timeline_events (incident_id : string)
    (calls : list (string * string)) : M (list bool) :=
  match calls with
  | [] => mret []
  | (event, author) :: calls =>
    b ← add_timeline_event incident_id event author;
    bs ← add_timeline_events incident_id calls;
    mret (b :: bs)
  end.

(** The timeline entries that a run of calls starting at clock reading [n]
    appends. *)
Fixpoint entries_from (n : nat) (calls : list (string * string))
    : list TimelineEvent :=
  match calls with
  | [] => []
  | (event, author) :: calls =>
    mkEvent (now_at n) event author :: entries_from (S n) calls
  end.

(** Lines 168-180; [resolution_notes] is not used. *)
Definition resolve (incident_id resolution_notes : string) : M bool :=
  now ← datetime_now;
  rowcount ← update_incident incident_id (set_status_resolved_at "resolved" now);
  mret (bool_decide (0 < rowcount)%nat).

(** The expression under [AVG] at lines 189-190 and 197-198, on one row:
    [NULL] when [resolved_at] is. *)
Definition resolution_minutes (r : Row) : option Q :=
  t ← col_resolved_at r;
  Some (inject_Z (strftime_s t - strftime_s (col_created_at r)) / 60)%Q.

(** SQL's [AVG]: [NULL]s are skipped, and the result is [NULL] when
    nothing is left. *)
Definition sql_avg (l : list (option Q)) : option Q :=
  match omap (λ x, x) l with
  | [] => None
  | v :: vs =>
    Some (foldr Qplus 0%Q (v :: vs) / inject_Z (Z.of_nat (length (v :: vs))))%Q
  end.

(** The rows of [incidents], key first. *)
Definition incident_rows (w : World) : list (string * Row) :=
  map_to_list (incidents w).

(** The [WHERE] clause of the two statements of [get_mttr]. *)
Definition resolved_with (severity : option string) (kr : string * Row) : Prop :=
  col_status kr.2 = "resolved" ∧
  match severity with
  | Some s => col_severity kr.2 = s
  | None => True
  end.

#[global] Instance resolved_with_dec severity kr :
  Decision (resolved_with severity kr).
Proof. unfold resolved_with. destruct severity; apply _. Defined.

Definition select_avg_resolution (severity : option string) : M (option Q) :=
  λ w, (Return (sql_avg (resolution_minutes ∘ snd <$>
                           filter (resolved_with severity) (incident_rows w))),
        w).

(** Lines 182-205.  [if severity:] takes the first statement for a
    non-empty string, and [row[0] or 0] turns [None] into [0]. *)
Definition get_mttr (severity : option string) : M Q :=
  row ← (match severity with
         | Some s =>
           if decide (s = "") then select_avg_resolution None
           else select_avg_resolution (Some s)
         | None => select_avg_resolution None
         end);
  mret (default 0%Q row).

(** The severity that [get_mttr] filters on: none when the argument is
    [None] or empty. *)
Definition applied_filter (severity : option string) : option string :=
  match severity with
  | Some s => if decide (s = "") then None else Some s
  | None => None
  end.

(** The time between two datetimes in minutes, as a rational. *)
Definition elapsed_minutes (created_at resolved_at : datetime) : Q :=
  (inject_Z (resolved_at - created_at) / 60000000)%Q.

(** A datetime without a fraction of a second. *)
Definition whole_second (t : datetime) : Prop := t `mod` 1000000 = 0.

(** [ORDER BY created_at DESC]: the row with the later [created_at] comes
    first. *)
Definition created_at_desc (a b : string * Row) : Prop :=
  (col_created_at b.2 ≤ col_created_at a.2)%Z.

#[global] Instance created_at_desc_dec a b : Decision (created_at_desc a b).
Proof. unfold created_at_desc. apply _. Defined.

Definition select_active : M (list (string * Row)) :=
  λ w, (Return (merge_sort created_at_desc
                  (filter (λ kr, col_status kr.2 ≠ "resolved")
                          (incident_rows w))),
        w).

(** Lines 207-226. *)
Definition get_active_incidents : M (list Incident.t) :=
  rows ← select_active;
  mret ((λ kr, to_incident kr.1 kr.2) <$> rows).

(** Lines 228-242. *)
Definition auto_create_from_alert (alert_source message severity : string)
    : M Incident.t :=
  incident ← create_incident ("Alert: " +:+ message) severity None;
  u ← uuid4;
  let alert_id := String.substring 0 8 u in
  fired_at ← datetime_now;
  insert_alert alert_id
    (mkAlertRow alert_source message severity fired_at
                (Some (Incident.id incident)));;
  mret incident.

(** Lines 295-314. *)
Definition get_incident (incident_id : string) : M (option Incident.t) :=
  row ← select_incident incident_id;
  mret (to_incident incident_id <$> row).

(** ** Histories of calls

    [generate_postmortem] only reads one row and formats it; it changes no
    state and is left out. *)

Inductive Call : Type :=
| CreateIncident (title severity : string) (services : option (list string))
| Assign (incident_id assignee : string)
| UpdateStatus (incident_id status : string)
| AddTimelineEvent (incident_id event author : string)
| Resolve (incident_id resolution_notes : string)
| GetMttr (severity : option string)
| GetActiveIncidents
| AutoCreateFromAlert (alert_source message severity : string)
| OncallSchedule
| GetIncident (incident_id : string).

(** The state a call leaves behind, whether it returns or raises. *)
Definition run (c : Call) (w : World) : World :=
  match c with
  | CreateIncident t s l => (create_incident t s l w).2
  | Assign i a => (assign i a w).2
  | UpdateStatus i s => (update_status i s w).2
  | AddTimelineEvent i e a => (add_timeline_event i e a w).2
  | Resolve i n => (resolve i n w).2
  | GetMttr s => (get_mttr s w).2
  | GetActiveIncidents => (get_active_incidents w).2
  | AutoCreateFromAlert a m s => (auto_create_from_alert a m s w).2
  | OncallSchedule => (oncall_schedule w).2
  | GetIncident i => (get_incident i w).2
  end.

(** The four methods that change an incident after its creation, and the
    id they are called with. *)
Definition is_update (c : Call) : Prop :=
  match c with
  | Assign _ _ | UpdateStatus _ _ | AddTimelineEvent _ _ _ | Resolve _ _ => True
  | _ => False
  end.

Definition target (c : Call) : option string :=
  match c with
  | Assign i _ | UpdateStatus i _ | AddTimelineEvent i _ _ | Resolve i _
  | GetIncident i => Some i
  | _ => None
  end.

(** The invariant of the data model: a row has a [resolved_at] exactly when
    its status is ["resolved"]. *)
Definition resolved_at_iff_resolved (r : Row) : Prop :=
  is_Some (col_resolved_at r) ↔ col_status r = "resolved".

Definition consistent (w : World) : Prop :=
  ∀ k r, incidents w !! k = Some r → resolved_at_iff_resolved r.

(** The states the program can be in: the empty database that [_init_db]
    creates, followed by any calls. *)
Inductive reachable : World → Prop :=
| reachable_init : reachable init_world
| reachable_run c w : reachable w → reachable (run c w).

(** ** The rest of the program *)

(** [datetime.isoformat()], the text the program stores and prints. *)
Variable isoformat : datetime → string.

(** The newline character. *)
Definition nl : string := String (Ascii.ascii_of_nat 10) "".

(** A text column inside an f-string: [None] prints as ["None"]. *)
Definition format_datetime (o : option datetime) : string :=
  match o with
  | Some t => isoformat t
  | None => "None"
  end.

(** The f-string of lines 261-270. *)
Definition postmortem_summary (r : Row) : string :=
  "# Incident Postmortem" +:+ nl +:+
  nl +:+
  "## Summary" +:+ nl +:+
  "- **Title:** " +:+ col_title r +:+ nl +:+
  "- **Severity:** " +:+ col_severity r +:+ nl +:+
  "- **Assignee:** " +:+ col_assignee r +:+ nl +:+
  "- **Duration:** " +:+ isoformat (col_created_at r) +:+ " to " +:+
    format_datetime (col_resolved_at r) +:+ nl +:+
  nl +:+
  "## Timeline" +:+ nl.

(** The f-string of line 272. *)
Definition postmortem_line (ev : TimelineEvent) : string :=
  "- **" +:+ isoformat (timestamp ev) +:+ "** (" +:+ author ev +:+ "): " +:+
  event ev +:+ nl.

(** The text of lines 274-286. *)
Definition postmortem_sections : string :=
  nl +:+
  "## Root Cause Analysis" +:+ nl +:+
  "<!-- Add root cause here -->" +:+ nl +:+
  nl +:+
  "## Impact" +:+ nl +:+
  "<!-- Describe impact here -->" +:+ nl +:+
  nl +:+
  "## Action Items" +:+ nl +:+
  "<!-- List action items here -->" +:+ nl +:+
  nl +:+
  "## Lessons Learned" +:+ nl +:+
  "<!-- Add lessons learned here -->" +:+ nl.

(** Lines 244-287; the loop of lines 271-272 is a left fold. *)
Definition generate_postmortem (incident_id : string) : M string :=
  row ← select_incident incident_id;
  match row with
  | None => mret ""
  | Some r =>
    let postmortem := postmortem_summary r in
    let postmortem :=
      foldl (λ pm ev, pm +:+ postmortem_line ev) postmortem (col_timeline r) in
    mret (postmortem +:+ postmortem_sections)
  end.

(** A history of calls, oldest first. *)
Definition run_all (cs : list Call) (w : World) : World :=
  foldl (λ w c, run c w) w cs.

(** What one call can do to the row under one key, between a state with [n]
    readings of the clock behind it and a state with [n']. *)
Inductive row_step (n n' : nat) : option Row → option Row → Prop :=
| step_same o : row_step n n' o o
| step_assign r a : row_step n n' (Some r) (Some (set_assignee a r))
| step_status r s :
    s ∈ valid_statuses → row_step n n' (Some r) (Some (set_status s r))
| step_timeline r e a :
    (n < n')%nat →
    row_step n n' (Some r)
      (Some (set_timeline (col_timeline r ++ [mkEvent (now_at n) e a]) r))
| step_resolve r :
    (n < n')%nat →
    row_step n n' (Some r)
      (Some (set_status_resolved_at "resolved" (now_at n) r))
| step_create t s p l :
    (n < n')%nat → p ∈ TEAM →
    row_step n n' None (Some (mkRow t s "new" p l [] (now_at n) None None)).

(** The order a clock that is never set back gives its readings. *)
Definition clock_monotone : Prop :=
  ∀ i j, (i ≤ j)%nat → (now_at i ≤ now_at j)%Z.

(** A datetime that is one of the first [n] readings of the clock. *)
Definition read_before (n : nat) (t : datetime) : Prop :=
  ∃ i, (i < n)%nat ∧ t = now_at i.

(** The datetimes of a row are readings of the clock, [created_at] is not
    after [resolved_at] nor after any entry of the timeline, and the
    timeline is in the order of its timestamps. *)
Definition row_timed (n : nat) (r : Row) : Prop :=
  read_before n (col_created_at r) ∧
  (∀ t, col_resolved_at r = Some t →
        read_before n t ∧ (col_created_at r ≤ t)%Z) ∧
  Forall (λ ev, read_before n (timestamp ev) ∧
                (col_created_at r ≤ timestamp ev)%Z) (col_timeline r) ∧
  StronglySorted (λ a b, (timestamp a ≤ timestamp b)%Z) (col_timeline r).

(** ** Concrete inputs for the rest of the program *)

(** [n] written with [width] decimal digits. *)
Fixpoint decimal (width : nat) (n : Z) : string :=
  match width with
  | O => ""
  | S width =>
    decimal width (n `div` 10) +:+
    String (Ascii.ascii_of_nat (48 + Z.to_nat (n `mod` 10))) ""
  end.

(** Python's [datetime.isoformat()] on a datetime given in microseconds:
    the civil date of the day number, ["T"], the time of day, and the six
    digits of the microseconds unless they are zero. *)
Definition iso8601 (t : datetime) : string :=
  let days := t `div` usec_per_day in
  let usec := t `mod` usec_per_day in
  let z := days + 719468 in
  let era := z `div` 146097 in
  let doe := z - era * 146097 in
  let yoe :=
    (doe - doe `div` 1460 + doe `div` 36524 - doe `div` 146096) `div` 365 in
  let doy := doe - (365 * yoe + yoe `div` 4 - yoe `div` 100) in
  let mp := (5 * doy + 2) `div` 153 in
  let day := doy - (153 * mp + 2) `div` 5 + 1 in
  let month := if decide (mp < 10)%Z then mp + 3 else mp - 9 in
  let year := yoe + era * 400 + (if decide (month ≤ 2)%Z then 1 else 0) in
  let second := usec `div` 1000000 in
  let fraction := usec `mod` 1000000 in
  decimal 4 year +:+ "-" +:+ decimal 2 month +:+ "-" +:+ decimal 2 day +:+
  "T" +:+ decimal 2 (second `div` 3600) +:+ ":" +:+
  decimal 2 ((second `div` 60) `mod` 60) +:+ ":" +:+
  decimal 2 (second `mod` 60) +:+
  (if decide (fraction = 0) then "" else "." +:+ decimal 6 fraction).

(** A uuid generator whose fourth text starts with the eight characters of
    its second. *)
Definition prefix_uuid (n : nat) : string :=
  match n with
  | 3%nat => "a81d04c7-6f0b-4d19-8c52-e37a90b1d4f6"
  | _ => demo_uuid n
  end.

(** A uuid generator that returns the same text every time. *)
Definition stuck_uuid (n : nat) : string := demo_uuid 0.

(** The state after [auto_create_from_alert("monitor-x", "disk full", "P2")]
    on an empty database, under [demo_clock]. *)
Definition demo_alert_row : AlertRow :=
  mkAlertRow "monitor-x" "disk full" "P2" 1704103202000000 (Some "3f2a9c1e").

Definition demo_alerted : World :=
  mkWorld
    {["3f2a9c1e" := mkRow "Alert: disk full" "P2" "new" "alexa" [] []
                          1704103200000000 None None]}
    {["a81d04c7" := demo_alert_row]} 3 2.

(** The state of [demo_created] after two timeline entries. *)
Definition demo_annotated : World :=
  mkWorld
    {["3f2a9c1e" :=
        set_timeline [mkEvent 1704103202000000 "paged" "alice";
                      mkEvent 1704103203000000 "mitigated" "octavia"]
                     demo_row]}
    ∅ 4 1.

(** A clock read just before and just after the midnight between Monday
    2024-01-01 and Tuesday 2024-01-02. *)
Definition midnight_clock (n : nat) : datetime :=
  match n with
  | 0%nat => 1704153599999999
  | _ => 1704153600000001
  end.

(** A local clock on Sunday 2024-11-03 that is set back one hour after
    01:59:59, as at the end of daylight saving time: 01:59:58, 01:59:59,
    01:00:00, 01:00:01 and so on. *)
Definition fallback_clock (n : nat) : datetime :=
  match n with
  | 0%nat => 1730599198000000
  | 1%nat => 1730599199000000
  | _ => 1730595600000000 + Z.of_nat (n - 2) * 1000000
  end.

(** The state after [create_incident("db down", "P1", ["api"])] and
    [resolve] of the new incident under [fallback_clock]. *)
Definition fallback_resolved : World :=
  mkWorld
    {["3f2a9c1e" :=
        mkRow "db down" "P1" "resolved" "alice" ["api"] [] 1730599198000000
              (Some 1730595600000000) None]}
    ∅ 3 1.

(** ** Properties *)

(** Unfolds the methods and the monad down to the table operations. *)
Ltac unfold_methods :=
  unfold run, create_incident, assign, update_status,
    add_timeline_event, resolve, get_mttr,
    get_active_incidents, auto_create_from_alert,
    oncall_schedule, get_incident,
    select_avg_resolution, select_active, select_incident,
    update_incident, insert_incident, insert_alert,
    datetime_now, uuid4, lift_res,
    mbind, M_bind, mret, M_ret in *.

(** *** [update_status] *)

(** C2.  A status outside the five valid ones makes [update_status]
    return [False] before any statement is run: the whole state, and so
    the stored status of every incident, is what it was. *)
Theorem update_status_invalid (incident_id status : string) (w : World) :
  status ∉ valid_statuses →
  update_status incident_id status w = (Return false, w).
Proof.
  intros Hbad. unfold update_status.
  destruct (decide (status ∉ valid_statuses)) as [_|Hin]; [done|].
  by destruct Hin.
Qed.

Lemma update_status_unknown (incident_id status : string) (w : World) :
  status ∈ valid_statuses →
  incidents w !! incident_id = None →
  update_status incident_id status w = (Return false, w).
Proof.
  intros Hok Hnone. unfold_methods.
  destruct (decide (status ∉ valid_statuses)) as [Hbad|_]; [by destruct Hbad|].
  by rewrite Hnone.
Qed.

Lemma update_status_known (incident_id status : string) (r : Row) (w : World) :
  status ∈ valid_statuses →
  incidents w !! incident_id = Some r →
  update_status incident_id status w =
  (Return true,
   mkWorld (<[incident_id := set_status status r]> (incidents w))
           (alerts w) (clock_reads w) (uuid_draws w)).
Proof.
  intros Hok Hsome. unfold_methods.
  destruct (decide (status ∉ valid_statuses)) as [Hbad|_]; [by destruct Hbad|].
  by rewrite Hsome.
Qed.

(** C10.  [update_status] answers an invalid status and a valid status
    for an unknown id with the same [False] and the same untouched state,
    so the result does not tell the two failures apart. *)
Theorem update_status_false_twice (id1 status1 id2 status2 : string) (w : World) :
  status1 ∉ valid_statuses →
  status2 ∈ valid_statuses →
  incidents w !! id2 = None →
  update_status id1 status1 w = (Return false, w) ∧
  update_status id2 status2 w = (Return false, w).
Proof.
  intros Hbad Hok Hnone. split.
  - unfold update_status. by rewrite decide_True.
  - by apply update_status_unknown.
Qed.

(** *** [oncall_schedule] *)

Lemma roster_at_returns (team : list string) (day_of_week : Z) :
  team ≠ [] →
  ∃ p, roster_at team day_of_week = Return p ∧
       team !! Z.to_nat (day_of_week `mod` Z.of_nat (length team)) = Some p.
Proof.
  intros Hne. unfold roster_at.
  destruct (decide (length team = 0%nat)) as [H0|Hlen].
  { by destruct team. }
  assert (Hlt : (Z.to_nat (day_of_week `mod` Z.of_nat (length team))
                 < length team)%nat).
  { pose proof (Z.mod_pos_bound day_of_week (Z.of_nat (length team))). lia. }
  destruct (lookup_lt_is_Some_2 team _ Hlt) as [p Hp].
  exists p. by rewrite Hp.
Qed.

Lemma roster_at_mod (team : list string) (d1 d2 : Z) :
  d1 `mod` Z.of_nat (length team) = d2 `mod` Z.of_nat (length team) →
  roster_at team d1 = roster_at team d2.
Proof. intros Heq. unfold roster_at. by rewrite Heq. Qed.

Lemma oncall_schedule_run (w : World) :
  oncall_schedule w =
  (roster_at TEAM (weekday (now_at (clock_reads w))),
   mkWorld (incidents w) (alerts w) (S (clock_reads w)) (uuid_draws w)).
Proof. reflexivity. Qed.

Lemma weekday_same_day (t1 t2 : datetime) :
  day_number t1 = day_number t2 → weekday t1 = weekday t2.
Proof. unfold weekday, day_number. by intros ->. Qed.

(** C6.  [oncall_schedule] reads the clock once and returns
    [TEAM[day_of_week % len(TEAM)]]: it touches no table and never raises,
    and two calls made on the same day, or on days whose days of week agree
    modulo the size of the roster, return the same person. *)
Theorem oncall_schedule_day_of_week (w1 w2 : World) :
  day_number (now_at (clock_reads w1)) = day_number (now_at (clock_reads w2)) ∨
  weekday (now_at (clock_reads w1)) `mod` Z.of_nat (length TEAM) =
  weekday (now_at (clock_reads w2)) `mod` Z.of_nat (length TEAM) →
  ∃ p,
    TEAM !! Z.to_nat (weekday (now_at (clock_reads w1))
                        `mod` Z.of_nat (length TEAM)) = Some p ∧
    oncall_schedule w1 =
      (Return p,
       mkWorld (incidents w1) (alerts w1) (S (clock_reads w1)) (uuid_draws w1)) ∧
    oncall_schedule w2 =
      (Return p,
       mkWorld (incidents w2) (alerts w2) (S (clock_reads w2)) (uuid_draws w2)).
Proof.
  intros Hdays.
  assert (Hmod : weekday (now_at (clock_reads w1)) `mod` Z.of_nat (length TEAM) =
                 weekday (now_at (clock_reads w2)) `mod` Z.of_nat (length TEAM)).
  { destruct Hdays as [Hday|Hmod]; [|exact Hmod].
    by rewrite (weekday_same_day _ _ Hday). }
  destruct (roster_at_returns TEAM (weekday (now_at (clock_reads w1))))
    as (p & Hp & Hat); [done|].
  exists p. split; [exact Hat|].
  rewrite !oncall_schedule_run, <- (roster_at_mod TEAM _ _ Hmod), Hp.
  done.
Qed.

(** *** [create_incident] *)

(** C3, as the program has it.  When the eight characters drawn for the id
    are not yet a key of the table, [create_incident] returns an incident
    with status ["new"], an empty timeline, no [resolved_at], the reading of
    the clock as [created_at] and the given services; its assignee is the
    person [oncall_schedule] returns when called next, from a second reading
    of the clock, and that is the on-call person of the day of [created_at]
    when the two readings fall on the same weekday; the row it inserts reads
    back as the same incident, and no other row changes. *)
Theorem create_incident_new (title severity : string)
    (services : option (list string)) (w : World) :
  incidents w !! String.substring 0 8 (uuid_at (uuid_draws w)) = None →
  ∃ inc w',
    create_incident title severity services w = (Return inc, w') ∧
    Incident.id inc = String.substring 0 8 (uuid_at (uuid_draws w)) ∧
    Incident.title inc = title ∧
    Incident.severity inc = severity ∧
    Incident.status inc = "new" ∧
    Incident.timeline inc = [] ∧
    Incident.resolved_at inc = None ∧
    Incident.created_at inc = now_at (clock_reads w) ∧
    (oncall_schedule
       (mkWorld (incidents w) (alerts w) (S (clock_reads w))
                (S (uuid_draws w)))).1 = Return (Incident.assignee inc) ∧
    (weekday (now_at (S (clock_reads w))) = weekday (now_at (clock_reads w)) →
     roster_at TEAM (weekday (Incident.created_at inc)) =
     Return (Incident.assignee inc)) ∧
    Incident.services inc = default [] services ∧
    (∀ l, services = Some l → Incident.services inc = l) ∧
    incidents w' !! Incident.id inc =
      Some (mkRow title severity "new" (Incident.assignee inc)
                  (default [] services) [] (now_at (clock_reads w)) None None) ∧
    get_incident (Incident.id inc) w' = (Return (Some inc), w') ∧
    (∀ k, k ≠ Incident.id inc → incidents w' !! k = incidents w !! k) ∧
    alerts w' = alerts w.
Proof.
  intros Hfresh.
  destruct (roster_at_returns TEAM (weekday (now_at (S (clock_reads w)))))
    as (p & Hp & _); [done|].
  unfold_methods. simpl. rewrite Hp. simpl. rewrite Hfresh.
  eexists _, _. split; [reflexivity|]. simpl.
  repeat split; try done.
  - intros Hday. by rewrite <- Hday.
  - intros l ->. done.
  - by rewrite lookup_insert_eq.
  - by rewrite lookup_insert_eq.
  - intros k Hk. by rewrite lookup_insert_ne.
Qed.

(** *** [add_timeline_event] *)

Lemma add_timeline_event_unknown (incident_id event author : string) (w : World) :
  incidents w !! incident_id = None →
  add_timeline_event incident_id event author w = (Return false, w).
Proof. intros Hnone. unfold_methods. by rewrite Hnone. Qed.

Lemma add_timeline_event_known (incident_id event author : string)
    (r : Row) (w : World) :
  incidents w !! incident_id = Some r →
  add_timeline_event incident_id event author w =
  (Return true,
   mkWorld (<[incident_id :=
                set_timeline
                  (col_timeline r ++
                   [mkEvent (now_at (clock_reads w)) event author]) r]>
              (incidents w))
           (alerts w) (S (clock_reads w)) (uuid_draws w)).
Proof.
  intros Hsome. unfold_methods. simpl. rewrite Hsome. simpl.
  by rewrite Hsome.
Qed.

Lemma entries_from_length (n : nat) (calls : list (string * string)) :
  length (entries_from n calls) = length calls.
Proof.
  revert n. induction calls as [|[e a] calls IH]; intros n; simpl; [done|].
  by rewrite IH.
Qed.

Lemma entries_from_lookup (n i : nat) (calls : list (string * string))
    (e a : string) :
  calls !! i = Some (e, a) →
  entries_from n calls !! i = Some (mkEvent (now_at (n + i)) e a).
Proof.
  revert n i. induction calls as [|[e' a'] calls IH]; intros n i Hi; [done|].
  destruct i as [|i]; simpl in *.
  - injection Hi as -> ->. by rewrite Nat.add_0_r.
  - rewrite (IH (S n) i Hi). do 3 f_equal. lia.
Qed.

Lemma set_timeline_set_timeline (t1 t2 : list TimelineEvent) (r : Row) :
  set_timeline t2 (set_timeline t1 r) = set_timeline t2 r.
Proof. reflexivity. Qed.

Lemma add_timeline_events_known (incident_id : string)
    (calls : list (string * string)) (r : Row) (w : World) :
  incidents w !! incident_id = Some r →
  add_timeline_events incident_id calls w =
  (Return (replicate (length calls) true),
   mkWorld (<[incident_id :=
                set_timeline
                  (col_timeline r ++ entries_from (clock_reads w) calls) r]>
              (incidents w))
           (alerts w) (clock_reads w + length calls)%nat (uuid_draws w)).
Proof.
  revert r w. induction calls as [|[e a] calls IH]; intros r w Hsome.
  - simpl. unfold mret, M_ret. rewrite app_nil_r, Nat.add_0_r.
    replace (set_timeline (col_timeline r) r) with r by (by destruct r).
    rewrite (insert_id _ _ _ Hsome). by destruct w.
  - simpl. unfold mbind, M_bind at 1.
    rewrite (add_timeline_event_known _ _ _ _ _ Hsome).
    unfold mbind, M_bind at 1.
    erewrite IH; [|simpl; apply lookup_insert_eq].
    simpl. unfold mret, M_ret. rewrite insert_insert_eq.
    rewrite set_timeline_set_timeline, <- app_assoc. simpl.
    do 3 f_equal. lia.
Qed.

(** C8.  For an unknown id [add_timeline_event] returns [False] and changes
    nothing.  For a known id every one of [N] calls in a row returns [True],
    and afterwards the timeline is the one before followed by exactly [N]
    entries, the [i]-th carrying the event and the author of the [i]-th call
    and the clock reading taken by that call; no other column and no other
    row changes.  On an incident whose timeline was empty the timeline then
    has length [N]. *)
Theorem add_timeline_event_appends (incident_id : string) (w : World) :
  (incidents w !! incident_id = None →
   ∀ event author,
     add_timeline_event incident_id event author w = (Return false, w)) ∧
  (∀ r, incidents w !! incident_id = Some r →
   ∀ event author,
   ∃ w',
     add_timeline_event incident_id event author w = (Return true, w') ∧
     incidents w' !! incident_id =
       Some (set_timeline
               (col_timeline r ++
                [mkEvent (now_at (clock_reads w)) event author]) r) ∧
     (∀ k, k ≠ incident_id → incidents w' !! k = incidents w !! k)) ∧
  (∀ r, incidents w !! incident_id = Some r →
   ∀ calls : list (string * string),
   ∃ results w' entries,
     add_timeline_events incident_id calls w = (Return results, w') ∧
     Forall (λ b, b = true) results ∧
     length results = length calls ∧
     incidents w' !! incident_id =
       Some (set_timeline (col_timeline r ++ entries) r) ∧
     length entries = length calls ∧
     (∀ i e a, calls !! i = Some (e, a) →
        entries !! i = Some (mkEvent (now_at (clock_reads w + i)) e a)) ∧
     (col_timeline r = [] →
        ∀ t, incidents w' !! incident_id = Some t →
             length (col_timeline t) = length calls) ∧
     (∀ k, k ≠ incident_id → incidents w' !! k = incidents w !! k) ∧
     alerts w' = alerts w).
Proof.
  split; [|split].
  - intros Hnone event author. by apply add_timeline_event_unknown.
  - intros r Hsome event author. eexists.
    split; [by apply add_timeline_event_known|]. simpl.
    split; [by rewrite lookup_insert_eq|].
    intros k Hk. by rewrite lookup_insert_ne.
  - intros r Hsome calls.
    eexists _, _, (entries_from (clock_reads w) calls).
    split; [by apply add_timeline_events_known|]. simpl.
    split; [apply Forall_replicate; done|].
    split; [by rewrite length_replicate|].
    split; [by rewrite lookup_insert_eq|].
    split; [apply entries_from_length|].
    split; [intros i e a; apply entries_from_lookup|].
    split.
    + intros Hnil t. rewrite lookup_insert_eq. intros [= <-]. simpl.
      rewrite Hnil. simpl. apply entries_from_length.
    + split; [|done]. intros k Hk. by rewrite lookup_insert_ne.
Qed.

(** *** What the updating methods leave alone *)

Lemma update_incident_frame (k : string) (set : Row → Row) (w : World) :
  (∀ r, col_title (set r) = col_title r ∧
        col_created_at (set r) = col_created_at r ∧
        col_services (set r) = col_services r) →
  ∀ j, match incidents w !! j with
       | Some r =>
         ∃ r', incidents (update_incident k set w).2 !! j = Some r' ∧
               col_title r' = col_title r ∧
               col_created_at r' = col_created_at r ∧
               col_services r' = col_services r ∧
               (j ≠ k → r' = r)
       | None => incidents (update_incident k set w).2 !! j = None
       end.
Proof.
  intros Hset j. unfold update_incident.
  destruct (incidents w !! k) as [rk|] eqn:Hk; simpl.
  - destruct (decide (j = k)) as [->|Hjk].
    + rewrite Hk, lookup_insert_eq. exists (set rk).
      destruct (Hset rk) as (? & ? & ?). done.
    + rewrite lookup_insert_ne by done.
      destruct (incidents w !! j) as [r|]; [|done]. by exists r.
  - destruct (incidents w !! j) as [r|]; [|done]. by exists r.
Qed.

Lemma run_update_incident (c : Call) (w : World) :
  is_update c →
  ∃ k set w0,
    target c = Some k ∧
    incidents w0 = incidents w ∧
    incidents (run c w) = incidents (update_incident k set w0).2 ∧
    alerts (run c w) = alerts w ∧
    (clock_reads w ≤ clock_reads (run c w))%nat ∧
    (∀ r, col_title (set r) = col_title r ∧
          col_created_at (set r) = col_created_at r ∧
          col_services (set r) = col_services r) ∧
    ((∀ i s, c ≠ UpdateStatus i s) →
     ∀ r, resolved_at_iff_resolved r → resolved_at_iff_resolved (set r)).
Proof.
  destruct c as [| i a | i s | i e a | i n | | | | |]; try done; intros _.
  - exists i, (set_assignee a), w. unfold_methods.
    destruct (incidents w !! i); simpl;
      (do 5 (split; [done || lia|])); (split; [done|]); by intros _ r0 Hr0.
  - exists i, (if decide (s ∉ valid_statuses) then (λ r, r) else set_status s), w.
    unfold_methods. destruct (decide (s ∉ valid_statuses)); simpl.
    + destruct (incidents w !! i) as [r|] eqn:Hi; simpl;
        rewrite ?(insert_id _ _ _ Hi);
        (do 5 (split; [done || lia|])); (split; [done|]); by intros _ r0 Hr0.
    + destruct (incidents w !! i); simpl;
        (do 5 (split; [done || lia|])); (split; [done|]);
        intros Hne; by destruct (Hne i s).
  - destruct (incidents w !! i) as [r|] eqn:Hi.
    + exists i, (set_timeline (col_timeline r ++
                                [mkEvent (now_at (clock_reads w)) e a])), w.
      unfold run. rewrite (add_timeline_event_known _ _ _ _ _ Hi).
      unfold update_incident. rewrite Hi. simpl.
      (do 5 (split; [done || lia|])); (split; [done|]); by intros _ r0 Hr0.
    + exists i, (λ r, r), w.
      unfold run. rewrite (add_timeline_event_unknown _ _ _ _ Hi).
      unfold update_incident. rewrite Hi. simpl.
      (do 5 (split; [done || lia|])); (split; [done|]); by intros _ r0 Hr0.
  - exists i, (set_status_resolved_at "resolved" (now_at (clock_reads w))), w.
    unfold_methods. simpl.
    destruct (incidents w !! i); simpl;
      (do 5 (split; [done || lia|])); (split; [done|]); intros _ r0 _;
      unfold resolved_at_iff_resolved; simpl; (split; [done|eauto]).
Qed.

(** C9.  [assign], [update_status], [add_timeline_event] and [resolve]
    create and delete no row, keep the id, the title, [created_at] and the
    services of every incident, and leave every incident with an id other
    than the one they are called with, and every alert, exactly as it
    was. *)
Theorem updates_keep_identity (c : Call) (w : World) :
  is_update c →
  alerts (run c w) = alerts w ∧
  ∀ k,
    match (get_incident k w).1 with
    | Return (Some inc) =>
      ∃ inc',
        (get_incident k (run c w)).1 = Return (Some inc') ∧
        Incident.id inc' = Incident.id inc ∧
        Incident.title inc' = Incident.title inc ∧
        Incident.created_at inc' = Incident.created_at inc ∧
        Incident.services inc' = Incident.services inc ∧
        (target c ≠ Some k →
         inc' = inc ∧ incidents (run c w) !! k = incidents w !! k)
    | _ => (get_incident k (run c w)).1 = Return None
    end.
Proof.
  intros Hc.
  destruct (run_update_incident c w Hc)
    as (i & set & w0 & Hi & Hw0 & Hrun & Halerts & _ & Hset & _).
  split; [exact Halerts|]. intros k.
  pose proof (update_incident_frame i set w0 Hset k) as Hframe.
  rewrite Hw0, <- Hrun in Hframe.
  unfold get_incident, select_incident, mbind, M_bind, mret, M_ret. simpl.
  destruct (incidents w !! k) as [r|]; simpl.
  - destruct Hframe as (r' & -> & Ht & Hc' & Hs & Hother). simpl.
    eexists. split; [reflexivity|]. simpl.
    do 4 (split; [done|]). intros Hk.
    rewrite Hother; [done|]. rewrite Hi in Hk. congruence.
  - by rewrite Hframe.
Qed.

(** *** Reachable states *)

(** The three queries change nothing. *)
Lemma get_mttr_state (severity : option string) (w : World) :
  (get_mttr severity w).2 = w.
Proof.
  unfold get_mttr, select_avg_resolution, mbind, M_bind, mret, M_ret.
  destruct severity as [s|]; [destruct (decide (s = ""))|]; reflexivity.
Qed.

Lemma get_active_incidents_state (w : World) : (get_active_incidents w).2 = w.
Proof. reflexivity. Qed.

Lemma get_incident_state (incident_id : string) (w : World) :
  (get_incident incident_id w).2 = w.
Proof. reflexivity. Qed.

(** [auto_create_from_alert] does to the incidents what the
    [create_incident] it starts with does; the clock is read once more when
    that call returns. *)
Lemma auto_create_from_alert_incidents (alert_source message severity : string)
    (w : World) :
  let w1 := run (CreateIncident ("Alert: " +:+ message) severity None) w in
  let w2 := (auto_create_from_alert alert_source message severity w).2 in
  incidents w2 = incidents w1 ∧
  (clock_reads w1 ≤ clock_reads w2)%nat.
Proof.
  cbv zeta. unfold run, auto_create_from_alert, mbind, M_bind.
  destruct (create_incident _ _ _ w) as [[inc|e] w1]; simpl; [|done].
  unfold insert_alert, uuid4, datetime_now, mret, M_ret. simpl.
  destruct (alerts w1 !! _); simpl; split; (done || lia).
Qed.

(** What a call can do to the table of incidents and to the clock: the clock
    is never set back, and a row of the new table either was there before
    with the same [created_at], or was created by this call from the first
    reading of the clock it took. *)
Lemma run_created_at (c : Call) (w : World) :
  (clock_reads w ≤ clock_reads (run c w))%nat ∧
  ∀ k r', incidents (run c w) !! k = Some r' →
    (∃ r, incidents w !! k = Some r ∧ col_created_at r' = col_created_at r) ∨
    (col_created_at r' = now_at (clock_reads w) ∧
     (clock_reads w < clock_reads (run c w))%nat).
Proof.
  assert (Hcreate : ∀ t s l,
    (clock_reads w < clock_reads (run (CreateIncident t s l) w))%nat ∧
    ∀ k r', incidents (run (CreateIncident t s l) w) !! k = Some r' →
      (∃ r, incidents w !! k = Some r ∧ col_created_at r' = col_created_at r) ∨
      col_created_at r' = now_at (clock_reads w)).
  { intros t s l. unfold_methods. simpl.
    repeat (case_match; simplify_eq/=); (split; [lia|]); intros k r' Hk;
      try (left; by exists r').
    destruct (decide (k = String.substring 0 8 (uuid_at (uuid_draws w))))
      as [->|Hne].
    - rewrite lookup_insert_eq in Hk. simplify_eq/=. by right.
    - rewrite lookup_insert_ne in Hk by done. left. by exists r'. }
  assert (Hupdate : ∀ u, is_update u →
    (clock_reads w ≤ clock_reads (run u w))%nat ∧
    ∀ k r', incidents (run u w) !! k = Some r' →
      ∃ r, incidents w !! k = Some r ∧ col_created_at r' = col_created_at r).
  { intros u Hu.
    destruct (run_update_incident u w Hu)
      as (k0 & set & w0 & _ & Hw0 & Hrun & _ & Hclk & Hset & _).
    split; [done|]. intros k r' Hk. rewrite Hrun in Hk.
    pose proof (update_incident_frame k0 set w0 Hset k) as Hframe.
    rewrite Hw0 in Hframe. destruct (incidents w !! k) as [r|].
    - destruct Hframe as (r'' & Hr'' & _ & Hcr & _). exists r.
      split; [done|]. congruence.
    - congruence. }
  destruct c as [t s l| i a | i s | i e a | i n | s | | a m s | | i];
    try (match goal with
         | |- context [run ?u w] =>
           destruct (Hupdate u I) as [Hclk Hrows];
           split; [done|]; intros k r' Hk; left; by apply Hrows
         end).
  - destruct (Hcreate t s l) as [Hlt Hrows].
    split; [by apply Nat.lt_le_incl|].
    intros k r' Hk. destruct (Hrows k r' Hk) as [?|?]; [by left|by right].
  - unfold run. rewrite get_mttr_state. split; [done|].
    intros k r' Hk; left; by exists r'.
  - unfold run. rewrite get_active_incidents_state. split; [done|].
    intros k r' Hk; left; by exists r'.
  - destruct (auto_create_from_alert_incidents a m s w) as [Hinc Hclk].
    destruct (Hcreate ("Alert: " +:+ m) s None) as [Hlt Hrows].
    assert (Hlt' : (clock_reads w <
                    clock_reads (run (AutoCreateFromAlert a m s) w))%nat)
      by (eapply Nat.lt_le_trans; [exact Hlt|exact Hclk]).
    split; [by apply Nat.lt_le_incl|]. intros k r' Hk.
    change (incidents (auto_create_from_alert a m s w).2 !! k = Some r') in Hk.
    rewrite Hinc in Hk. destruct (Hrows k r' Hk) as [?|?]; [by left|by right].
  - unfold run. rewrite oncall_schedule_run. simpl. split; [lia|].
    intros k r' Hk. left. by exists r'.
  - unfold run. rewrite get_incident_state. split; [done|].
    intros k r' Hk; left; by exists r'.
Qed.

(** Every stored [created_at] is a reading of the clock taken earlier. *)
Lemma reachable_created_at (w : World) :
  reachable w →
  ∀ k r, incidents w !! k = Some r →
    ∃ n, (n < clock_reads w)%nat ∧ col_created_at r = now_at n.
Proof.
  induction 1 as [|c w Hw IH]; intros k r Hk; [done|].
  destruct (run_created_at c w) as [Hclk Hrows].
  destruct (Hrows k r Hk) as [(r0 & Hr0 & Heq)|[Heq Hlt]].
  - destruct (IH k r0 Hr0) as (n & Hn & Hat). exists n.
    split; [by eapply Nat.lt_le_trans|congruence].
  - by exists (clock_reads w).
Qed.

(** *** [resolve] *)

Lemma resolve_known (incident_id notes : string) (r : Row) (w : World) :
  incidents w !! incident_id = Some r →
  resolve incident_id notes w =
  (Return true,
   mkWorld (<[incident_id :=
                set_status_resolved_at "resolved" (now_at (clock_reads w)) r]>
              (incidents w))
           (alerts w) (S (clock_reads w)) (uuid_draws w)).
Proof. intros Hsome. unfold_methods. simpl. by rewrite Hsome. Qed.

Lemma resolve_unknown (incident_id notes : string) (w : World) :
  incidents w !! incident_id = None →
  resolve incident_id notes w =
  (Return false,
   mkWorld (incidents w) (alerts w) (S (clock_reads w)) (uuid_draws w)).
Proof. intros Hnone. unfold_methods. simpl. by rewrite Hnone. Qed.

(** C4, as the program has it.  In any state, for an id in the table,
    whatever the status and the [resolved_at] of its row, [resolve] returns
    [True], and [get_incident] then shows status ["resolved"] and the reading
    of the clock taken by [resolve] as [resolved_at]; that reading is not
    before [created_at] when the state was reached by calls of the program
    under a clock that is never set back.  For an id not in the table
    [resolve] returns [False] and both tables stay as they are. *)
Theorem resolve_stamps (incident_id notes : string) (w : World) :
  (∀ r, incidents w !! incident_id = Some r →
     ∃ w' inc,
       resolve incident_id notes w = (Return true, w') ∧
       get_incident incident_id w' = (Return (Some inc), w') ∧
       Incident.status inc = "resolved" ∧
       Incident.resolved_at inc = Some (now_at (clock_reads w)) ∧
       Incident.created_at inc = col_created_at r ∧
       (clock_monotone → reachable w →
        (Incident.created_at inc ≤ now_at (clock_reads w))%Z)) ∧
  (incidents w !! incident_id = None →
     ∃ w',
       resolve incident_id notes w = (Return false, w') ∧
       incidents w' = incidents w ∧ alerts w' = alerts w).
Proof.
  split.
  - intros r Hsome.
    eexists _, _. split; [by apply resolve_known|].
    unfold get_incident, select_incident, mbind, M_bind, mret, M_ret. simpl.
    rewrite lookup_insert_eq. simpl.
    split; [reflexivity|]. simpl. do 3 (split; [done|]).
    intros Hmono Hreach.
    destruct (reachable_created_at w Hreach _ _ Hsome) as (n & Hn & ->).
    apply Hmono. lia.
  - intros Hnone. eexists. split; [by apply resolve_unknown|]. done.
Qed.

(** *** The invariant on [resolved_at] *)

(** Every method but [update_status] keeps the invariant. *)
Lemma run_consistent (c : Call) (w : World) :
  (∀ i s, c ≠ UpdateStatus i s) →
  consistent w → consistent (run c w).
Proof.
  intros Hc Hw.
  assert (Hcreate : ∀ t s l, consistent (run (CreateIncident t s l) w)).
  { intros t s l k r'. unfold_methods. simpl.
    repeat (case_match; simplify_eq/=); try apply Hw.
    destruct (decide (k = String.substring 0 8 (uuid_at (uuid_draws w))))
      as [->|Hne].
    - rewrite lookup_insert_eq. intros [= <-].
      unfold resolved_at_iff_resolved. simpl. split; [by intros [? ?]|done].
    - rewrite lookup_insert_ne by done. apply Hw. }
  assert (Hupdate : ∀ u, is_update u → (∀ i s, u ≠ UpdateStatus i s) →
            consistent (run u w)).
  { intros u Hu Hne k r' Hk.
    destruct (run_update_incident u w Hu)
      as (k0 & set & w0 & _ & Hw0 & Hrun & _ & _ & _ & Hset).
    rewrite Hrun in Hk. unfold update_incident in Hk. rewrite Hw0 in Hk.
    destruct (incidents w !! k0) as [r0|] eqn:Hk0; simpl in Hk.
    - destruct (decide (k = k0)) as [->|Hkk].
      + rewrite lookup_insert_eq in Hk. injection Hk as <-.
        apply (Hset Hne). by apply (Hw k0).
      + rewrite lookup_insert_ne in Hk by done. by apply (Hw k).
    - rewrite Hw0 in Hk. by apply (Hw k). }
  destruct c as [t s l| i a | i s | i e a | i n | s | | a m s | | i];
    try (by apply Hupdate).
  - apply Hcreate.
  - unfold run. by rewrite get_mttr_state.
  - done.
  - intros k r'. unfold run.
    destruct (auto_create_from_alert_incidents a m s w) as [-> _].
    apply Hcreate.
  - done.
  - done.
Qed.

(** [update_status] with ["resolved"] on a row without [resolved_at] loses
    it, in whatever state. *)
Lemma update_status_resolved_inconsistent (incident_id : string) (r : Row)
    (w : World) :
  incidents w !! incident_id = Some r →
  col_resolved_at r = None →
  ¬ consistent (run (UpdateStatus incident_id "resolved") w).
Proof.
  intros Hr Hnone Hc. unfold run in Hc.
  rewrite (update_status_known _ _ r) in Hc; [|set_solver|done].
  destruct (proj2 (Hc incident_id (set_status "resolved" r)
                      (lookup_insert_eq _ _ _)) eq_refl) as [t Ht].
  simpl in Ht. congruence.
Qed.

(** [update_status] keeps it as well when neither the status it writes nor
    the status it replaces is ["resolved"]. *)
Lemma update_status_consistent (incident_id status : string) (w : World) :
  status ≠ "resolved" →
  (∀ r, incidents w !! incident_id = Some r → col_status r ≠ "resolved") →
  consistent w → consistent (run (UpdateStatus incident_id status) w).
Proof.
  intros Hs Hold Hw k r'. unfold_methods.
  destruct (decide (status ∉ valid_statuses)); simpl; [apply Hw|].
  destruct (incidents w !! incident_id) as [r|] eqn:Hr; simpl; [|apply Hw].
  destruct (decide (k = incident_id)) as [->|Hne].
  - rewrite lookup_insert_eq. intros [= <-].
    specialize (Hw _ _ Hr). specialize (Hold _ eq_refl).
    unfold resolved_at_iff_resolved in *. simpl. split.
    + intros Hsome. by destruct Hold, (proj1 Hw).
    + done.
  - rewrite lookup_insert_ne by done. apply Hw.
Qed.

(** *** [get_active_incidents] *)

#[local] Instance created_at_desc_trans : Transitive created_at_desc.
Proof. intros a b c. unfold created_at_desc. lia. Qed.

#[local] Instance created_at_desc_total : Total created_at_desc.
Proof. intros a b. unfold created_at_desc. lia. Qed.

Lemma select_active_rows (w : World) :
  ∃ rows,
    select_active w = (Return rows, w) ∧
    rows ≡ₚ filter (λ kr, col_status kr.2 ≠ "resolved") (incident_rows w) ∧
    StronglySorted created_at_desc rows.
Proof.
  eexists. split; [reflexivity|]. split.
  - apply merge_sort_Permutation.
  - apply StronglySorted_merge_sort; apply _.
Qed.

(** C7.  [get_active_incidents] changes nothing and returns a list in which
    an incident occurs exactly when it is the reading of a row of the table
    whose status is not ["resolved"], no id occurs twice, no status is
    ["resolved"], and every incident is followed only by incidents whose
    [created_at] is not later than its own. *)
Theorem get_active_incidents_sorted (w : World) :
  ∃ l,
    get_active_incidents w = (Return l, w) ∧
    (∀ inc, inc ∈ l ↔
       ∃ r, incidents w !! Incident.id inc = Some r ∧
            col_status r ≠ "resolved" ∧
            inc = to_incident (Incident.id inc) r) ∧
    NoDup (Incident.id <$> l) ∧
    Forall (λ inc, Incident.status inc ≠ "resolved") l ∧
    StronglySorted
      (λ a b, (Incident.created_at b ≤ Incident.created_at a)%Z) l.
Proof.
  destruct (select_active_rows w) as (rows & Hrun & Hperm & Hsorted).
  exists ((λ kr, to_incident kr.1 kr.2) <$> rows).
  assert (Hin : ∀ k r, (k, r) ∈ rows ↔
            incidents w !! k = Some r ∧ col_status r ≠ "resolved").
  { intros k r. rewrite Hperm, list_elem_of_filter. unfold incident_rows.
    rewrite elem_of_map_to_list. simpl. tauto. }
  split; [|split; [|split; [|split]]].
  - unfold get_active_incidents, mbind, M_bind. by rewrite Hrun.
  - intros inc. rewrite list_elem_of_fmap. split.
    + intros ([k r] & -> & Hkr). apply Hin in Hkr as [Hk Hs].
      exists r. simpl. done.
    + intros (r & Hk & Hs & Hinc). exists (Incident.id inc, r).
      split; [done|]. by apply Hin.
  - rewrite <- list_fmap_compose.
    rewrite (list_fmap_ext _ fst rows) by (by intros ? [k r]).
    rewrite Hperm.
    eapply sublist_NoDup; [apply (NoDup_fst_map_to_list (incidents w))|].
    apply fmap_sublist, sublist_filter.
  - apply Forall_forall. intros inc.
    rewrite list_elem_of_fmap. intros ([k r] & -> & Hkr).
    apply Hin in Hkr as [_ Hs]. done.
  - eapply StronglySorted_fmap; [|exact Hsorted]. by intros [k1 r1] [k2 r2].
Qed.

(** *** [get_mttr] *)

Lemma get_mttr_run (severity : option string) (w : World) :
  get_mttr severity w =
  (Return (default 0%Q
             (sql_avg (resolution_minutes ∘ snd <$>
                         filter (resolved_with (applied_filter severity))
                                (incident_rows w)))),
   w).
Proof.
  unfold get_mttr, applied_filter, select_avg_resolution, mbind, M_bind,
    mret, M_ret.
  destruct severity as [s|]; [destruct (decide (s = ""))|]; reflexivity.
Qed.

Lemma strftime_s_whole (t : datetime) :
  whole_second t → t = strftime_s t * 1000000.
Proof.
  unfold whole_second, strftime_s. intros Hmod.
  rewrite Z.div_div by lia. change (1000 * 1000) with 1000000.
  pose proof (Z.div_mod t 1000000 ltac:(lia)) as Ht. rewrite Hmod in Ht.
  replace (t + 500) with (500 + (t `div` 1000000) * 1000000) by lia.
  rewrite Z.div_add by lia. rewrite (Z.div_small 500 1000000) by lia. lia.
Qed.

(** A list without repetition whose only possible element is [x] and that
    has [x] is [[x]]. *)
Lemma NoDup_singleton_eq {A} (l : list A) (x : A) :
  NoDup l → x ∈ l → (∀ y, y ∈ l → y = x) → l = [x].
Proof.
  intros Hnd Hx Hall. apply Permutation_singleton_r.
  apply NoDup_Permutation; [done|apply NoDup_singleton|].
  intros y. rewrite list_elem_of_singleton. split; [apply Hall|by intros ->].
Qed.

Lemma filter_none {A} (P : A → Prop) `{∀ x, Decision (P x)} (l : list A) :
  (∀ x, x ∈ l → ¬ P x) → filter P l = [].
Proof.
  induction l as [|x l IH]; intros Hall; [done|].
  rewrite filter_cons. destruct (decide (P x)) as [HP|_].
  - destruct (Hall x); [left|done].
  - apply IH. intros y Hy. apply Hall. by right.
Qed.

Lemma sql_avg_singleton (v : Q) : ∃ q, sql_avg [Some v] = Some q ∧ (q == v)%Q.
Proof.
  eexists. split; [reflexivity|]. simpl.
  change (inject_Z (Z.of_nat 1)) with 1%Q. field.
Qed.

(** C5, as the program has it.  [get_mttr] changes nothing and returns a
    number.  It returns [0] when no row has status ["resolved"] and the
    severity filtered on (an empty severity filters nothing).  When exactly
    one row has, and that row has a [resolved_at], it returns the difference
    of the whole epoch seconds of [resolved_at] and [created_at], as SQLite's
    [strftime('%s', ...)] gives them, divided by 60; this is the elapsed
    time in minutes when neither datetime has a fraction of a second. *)
Theorem get_mttr_whole_seconds (severity : option string) (w : World) :
  (∃ q, get_mttr severity w = (Return q, w)) ∧
  ((∀ k r, incidents w !! k = Some r →
           ¬ resolved_with (applied_filter severity) (k, r)) →
   get_mttr severity w = (Return 0%Q, w)) ∧
  (∀ k r t,
     incidents w !! k = Some r →
     resolved_with (applied_filter severity) (k, r) →
     (∀ k' r', incidents w !! k' = Some r' →
               resolved_with (applied_filter severity) (k', r') → k' = k) →
     col_resolved_at r = Some t →
     ∃ q,
       get_mttr severity w = (Return q, w) ∧
       (q == inject_Z (strftime_s t - strftime_s (col_created_at r)) / 60)%Q ∧
       (whole_second (col_created_at r) → whole_second t →
        (q == elapsed_minutes (col_created_at r) t)%Q)).
Proof.
  split; [|split].
  - eexists. apply get_mttr_run.
  - intros Hnone. rewrite get_mttr_run.
    rewrite filter_none; [done|].
    intros [k r] Hkr. apply Hnone. by apply elem_of_map_to_list.
  - intros k r t Hk Hres Honly Ht. rewrite get_mttr_run.
    rewrite (NoDup_singleton_eq
               (filter (resolved_with (applied_filter severity))
                       (incident_rows w)) (k, r)).
    + simpl.
      replace (resolution_minutes r)
        with (Some (inject_Z (strftime_s t - strftime_s (col_created_at r))
                    / 60)%Q)
        by (unfold resolution_minutes; by rewrite Ht).
      destruct (sql_avg_singleton
                  (inject_Z (strftime_s t - strftime_s (col_created_at r)) / 60))
        as (q & -> & Hq).
      exists q. simpl. split; [done|]. split; [done|].
      intros Hc Hr. rewrite Hq. unfold elapsed_minutes.
      rewrite (strftime_s_whole _ Hc) at 2. rewrite (strftime_s_whole _ Hr) at 2.
      rewrite <- Z.mul_sub_distr_r, inject_Z_mult. field.
    + apply NoDup_filter, NoDup_map_to_list.
    + apply list_elem_of_filter. split; [done|]. by apply elem_of_map_to_list.
    + intros [k' r']. rewrite list_elem_of_filter.
      intros [Hres' Hin]. apply elem_of_map_to_list in Hin.
      pose proof (Honly k' r' Hin Hres') as ->. congruence.
Qed.

(** ** Further properties *)

(** *** One call, row by row *)

Lemma assign_known (incident_id assignee : string) (r : Row) (w : World) :
  incidents w !! incident_id = Some r →
  assign incident_id assignee w =
  (Return true,
   mkWorld (<[incident_id := set_assignee assignee r]> (incidents w))
           (alerts w) (clock_reads w) (uuid_draws w)).
Proof. intros Hsome. unfold_methods. by rewrite Hsome. Qed.

Lemma assign_unknown (incident_id assignee : string) (w : World) :
  incidents w !! incident_id = None →
  assign incident_id assignee w = (Return false, w).
Proof. intros Hnone. unfold_methods. by rewrite Hnone. Qed.

Lemma roster_at_member (team : list string) (day_of_week : Z) (p : string) :
  roster_at team day_of_week = Return p → p ∈ team.
Proof.
  unfold roster_at. destruct (decide (length team = 0%nat)); [done|].
  destruct (team !! _) as [q|] eqn:Hq; [|done].
  intros [= <-]. by eapply list_elem_of_lookup_2.
Qed.

(** The two outcomes of [create_incident]. *)
Lemma create_incident_run (title severity : string)
    (services : option (list string)) (w : World) :
  ∃ p,
    p ∈ TEAM ∧
    roster_at TEAM (weekday (now_at (S (clock_reads w)))) = Return p ∧
    create_incident title severity services w =
    match incidents w !! String.substring 0 8 (uuid_at (uuid_draws w)) with
    | Some _ =>
      (Raise IntegrityError,
       mkWorld (incidents w) (alerts w) (S (S (clock_reads w)))
               (S (uuid_draws w)))
    | None =>
      (Return (Incident.mk (String.substring 0 8 (uuid_at (uuid_draws w)))
                 title severity "new" p (default [] services) []
                 (now_at (clock_reads w)) None ""),
       mkWorld (<[String.substring 0 8 (uuid_at (uuid_draws w)) :=
                    mkRow title severity "new" p (default [] services) []
                          (now_at (clock_reads w)) None None]> (incidents w))
               (alerts w) (S (S (clock_reads w))) (S (uuid_draws w)))
    end.
Proof.
  destruct (roster_at_returns TEAM (weekday (now_at (S (clock_reads w)))))
    as (p & Hp & _); [done|].
  exists p. split; [by eapply roster_at_member|]. split; [done|].
  unfold_methods. simpl. rewrite Hp. simpl.
  by destruct (incidents w !! _).
Qed.

Lemma run_row_step (c : Call) (w : World) (k : string) :
  (clock_reads w ≤ clock_reads (run c w))%nat ∧
  row_step (clock_reads w) (clock_reads (run c w))
           (incidents w !! k) (incidents (run c w) !! k).
Proof.
  assert (Hcreate : ∀ t s l,
    (clock_reads w ≤ clock_reads (run (CreateIncident t s l) w))%nat ∧
    row_step (clock_reads w) (S (S (clock_reads w)))
      (incidents w !! k) (incidents (run (CreateIncident t s l) w) !! k)).
  { intros t s l. unfold run.
    destruct (create_incident_run t s l w) as (p & Hp & _ & ->).
    destruct (incidents w !! String.substring _ _ _) as [r0|] eqn:Hk0; simpl.
    - split; [lia|constructor].
    - split; [lia|].
      destruct (decide (k = String.substring 0 8 (uuid_at (uuid_draws w))))
        as [->|Hne].
      + rewrite lookup_insert_eq, Hk0. constructor; [lia|done].
      + rewrite lookup_insert_ne by done. constructor. }
  destruct c as [t s l| i a | i s | i e a | i n | s | | a m s | | i]; unfold run.
  - destruct (Hcreate t s l) as [Hclk Hstep]. split; [done|].
    unfold run in Hstep.
    destruct (create_incident_run t s l w)
      as (p & _ & _ & Heq). rewrite Heq in *.
    by destruct (incidents w !! String.substring _ _ _).
  - destruct (incidents w !! i) as [r|] eqn:Hi.
    + rewrite (assign_known _ _ _ _ Hi). simpl. split; [done|].
      destruct (decide (k = i)) as [->|Hne].
      * rewrite lookup_insert_eq, Hi. constructor.
      * rewrite lookup_insert_ne by done. constructor.
    + rewrite (assign_unknown _ _ _ Hi). split; [done|constructor].
  - destruct (decide (s ∈ valid_statuses)) as [Hs|Hs].
    + destruct (incidents w !! i) as [r|] eqn:Hi.
      * rewrite (update_status_known _ _ _ _ Hs Hi). simpl. split; [done|].
        destruct (decide (k = i)) as [->|Hne].
        -- rewrite lookup_insert_eq, Hi. by constructor.
        -- rewrite lookup_insert_ne by done. constructor.
      * rewrite (update_status_unknown _ _ _ Hs Hi). split; [done|constructor].
    + unfold update_status. rewrite decide_True by done.
      split; [done|constructor].
  - destruct (incidents w !! i) as [r|] eqn:Hi.
    + rewrite (add_timeline_event_known _ _ _ _ _ Hi). simpl. split; [lia|].
      destruct (decide (k = i)) as [->|Hne].
      * rewrite lookup_insert_eq, Hi. constructor. lia.
      * rewrite lookup_insert_ne by done. constructor.
    + rewrite (add_timeline_event_unknown _ _ _ _ Hi).
      split; [done|constructor].
  - destruct (incidents w !! i) as [r|] eqn:Hi.
    + rewrite (resolve_known _ _ _ _ Hi). simpl. split; [lia|].
      destruct (decide (k = i)) as [->|Hne].
      * rewrite lookup_insert_eq, Hi. constructor. lia.
      * rewrite lookup_insert_ne by done. constructor.
    + rewrite (resolve_unknown _ _ _ Hi). simpl. split; [lia|constructor].
  - rewrite get_mttr_state. split; [done|constructor].
  - rewrite get_active_incidents_state. split; [done|constructor].
  - destruct (auto_create_from_alert_incidents a m s w) as [Hinc Hclk].
    destruct (Hcreate ("Alert: " +:+ m) s None) as [Hle Hstep].
    simpl in Hinc, Hclk. rewrite Hinc.
    split; [by eapply Nat.le_trans|].
    assert (Hlt : (S (S (clock_reads w)) ≤
                   clock_reads (auto_create_from_alert a m s w).2)%nat).
    { eapply Nat.le_trans; [|exact Hclk]. unfold run.
      destruct (create_incident_run ("Alert: " +:+ m) s None w)
        as (p & _ & _ & ->).
      by destruct (incidents w !! String.substring _ _ _). }
    inversion Hstep; subst; constructor; (done || lia).
  - rewrite oncall_schedule_run. simpl. split; [lia|constructor].
  - rewrite get_incident_state. split; [done|constructor].
Qed.

(** The three outcomes of [auto_create_from_alert]: the incident id is
    taken; the incident is stored and the alert id is taken; both rows are
    stored. *)
Lemma auto_create_from_alert_run (alert_source message severity : string)
    (w : World) :
  ∃ p,
    p ∈ TEAM ∧
    roster_at TEAM (weekday (now_at (S (clock_reads w)))) = Return p ∧
    auto_create_from_alert alert_source message severity w =
    let k := String.substring 0 8 (uuid_at (uuid_draws w)) in
    let ak := String.substring 0 8 (uuid_at (S (uuid_draws w))) in
    let row := mkRow ("Alert: " +:+ message) severity "new" p [] []
                     (now_at (clock_reads w)) None None in
    match incidents w !! k with
    | Some _ =>
      (Raise IntegrityError,
       mkWorld (incidents w) (alerts w) (S (S (clock_reads w)))
               (S (uuid_draws w)))
    | None =>
      match alerts w !! ak with
      | Some _ =>
        (Raise IntegrityError,
         mkWorld (<[k := row]> (incidents w)) (alerts w)
                 (S (S (S (clock_reads w)))) (S (S (uuid_draws w))))
      | None =>
        (Return (Incident.mk k ("Alert: " +:+ message) severity "new" p [] []
                             (now_at (clock_reads w)) None ""),
         mkWorld (<[k := row]> (incidents w))
                 (<[ak := mkAlertRow alert_source message severity
                                     (now_at (S (S (clock_reads w))))
                                     (Some k)]> (alerts w))
                 (S (S (S (clock_reads w)))) (S (S (uuid_draws w))))
      end
    end.
Proof.
  destruct (create_incident_run ("Alert: " +:+ message) severity None w)
    as (p & Hp & Hroster & Hrun).
  exists p. split; [done|]. split; [done|].
  cbv zeta. unfold auto_create_from_alert, mbind, M_bind. rewrite Hrun.
  destruct (incidents w !! String.substring _ _ _); [done|]. simpl.
  unfold insert_alert. simpl.
  by destruct (alerts w !! String.substring _ _ _).
Qed.

(** What one call can do to the table of alerts: nothing, or one new row
    that names an incident of the new state and carries its severity and,
    after ["Alert: "], its title. *)
Lemma run_alerts (c : Call) (w : World) :
  alerts (run c w) = alerts w ∨
  ∃ ak a k r,
    alerts w !! ak = None ∧
    alerts (run c w) = <[ak := a]> (alerts w) ∧
    alert_incident_id a = Some k ∧
    incidents w !! k = None ∧
    incidents (run c w) !! k = Some r ∧
    col_title r = "Alert: " +:+ alert_message a ∧
    col_severity r = alert_severity a.
Proof.
  destruct c as [t s l| i a | i s | i e a | i n | s | | a m s | | i];
    try (match goal with
         | |- context [run ?u w] =>
           left;
           destruct (run_update_incident u w I) as (? & ? & ? & _ & _ & _ & H & _);
           exact H
         end).
  - left. unfold run.
    destruct (create_incident_run t s l w) as (p & _ & _ & ->).
    by destruct (incidents w !! String.substring _ _ _).
  - left. unfold run. by rewrite get_mttr_state.
  - by left.
  - unfold run.
    destruct (auto_create_from_alert_run a m s w) as (p & _ & _ & ->).
    cbv zeta.
    destruct (incidents w !! String.substring _ _ _) eqn:Hk; [by left|].
    destruct (alerts w !! String.substring _ _ _) eqn:Hak; [by left|].
    right. eexists _, _, _, _. split; [exact Hak|]. split; [reflexivity|].
    split; [reflexivity|]. split; [exact Hk|]. simpl.
    by rewrite lookup_insert_eq.
  - by left.
  - by left.
Qed.

(** *** [create_incident] and [auto_create_from_alert] when an id is taken *)

(** X1.  When the eight characters drawn for the id are already a key of
    the table, [create_incident] raises [IntegrityError] and both tables
    stay as they are. *)
Theorem create_incident_taken (title severity : string)
    (services : option (list string)) (w : World) :
  is_Some (incidents w !! String.substring 0 8 (uuid_at (uuid_draws w))) →
  ∃ w',
    create_incident title severity services w = (Raise IntegrityError, w') ∧
    incidents w' = incidents w ∧
    alerts w' = alerts w.
Proof.
  intros [r Hr].
  destruct (create_incident_run title severity services w) as (p & _ & _ & ->).
  rewrite Hr. by eexists.
Qed.

(** X2.  When both ids drawn are free, [auto_create_from_alert] returns a
    new incident titled ["Alert: "] followed by the message, with the given
    severity, status ["new"] and no services; afterwards the incident reads
    back under its id, the table of alerts has one more row, which carries
    the source, the message, the severity and the id of that incident, and
    every other row of both tables is as it was. *)
Theorem auto_create_from_alert_links (alert_source message severity : string)
    (w : World) :
  incidents w !! String.substring 0 8 (uuid_at (uuid_draws w)) = None →
  alerts w !! String.substring 0 8 (uuid_at (S (uuid_draws w))) = None →
  ∃ inc w' fired_at,
    auto_create_from_alert alert_source message severity w = (Return inc, w') ∧
    Incident.id inc = String.substring 0 8 (uuid_at (uuid_draws w)) ∧
    Incident.title inc = "Alert: " +:+ message ∧
    Incident.severity inc = severity ∧
    Incident.status inc = "new" ∧
    Incident.services inc = [] ∧
    Incident.timeline inc = [] ∧
    get_incident (Incident.id inc) w' = (Return (Some inc), w') ∧
    alerts w' !! String.substring 0 8 (uuid_at (S (uuid_draws w))) =
      Some (mkAlertRow alert_source message severity fired_at
                       (Some (Incident.id inc))) ∧
    (∀ j, j ≠ Incident.id inc → incidents w' !! j = incidents w !! j) ∧
    (∀ j, j ≠ String.substring 0 8 (uuid_at (S (uuid_draws w))) →
          alerts w' !! j = alerts w !! j).
Proof.
  intros Hk Hak.
  destruct (auto_create_from_alert_run alert_source message severity w)
    as (p & _ & _ & ->).
  cbv zeta. rewrite Hk, Hak.
  eexists _, _, _. split; [reflexivity|]. simpl.
  do 6 (split; [done|]).
  split.
  { unfold get_incident, select_incident, mbind, M_bind, mret, M_ret. simpl.
    by rewrite lookup_insert_eq. }
  split; [by rewrite lookup_insert_eq|].
  split; intros j Hj; by rewrite lookup_insert_ne.
Qed.

(** X3.  When the id drawn for the incident is free and the id drawn for
    the alert is taken, [auto_create_from_alert] raises [IntegrityError]
    after the incident has been stored: the incident reads back, with status
    ["new"], and the table of alerts is as it was. *)
Theorem auto_create_from_alert_alert_taken
    (alert_source message severity : string) (w : World) :
  incidents w !! String.substring 0 8 (uuid_at (uuid_draws w)) = None →
  is_Some (alerts w !! String.substring 0 8 (uuid_at (S (uuid_draws w)))) →
  ∃ w' inc,
    auto_create_from_alert alert_source message severity w =
      (Raise IntegrityError, w') ∧
    get_incident (String.substring 0 8 (uuid_at (uuid_draws w))) w' =
      (Return (Some inc), w') ∧
    Incident.title inc = "Alert: " +:+ message ∧
    Incident.status inc = "new" ∧
    alerts w' = alerts w.
Proof.
  intros Hk [a Hak].
  destruct (auto_create_from_alert_run alert_source message severity w)
    as (p & _ & _ & ->).
  cbv zeta. rewrite Hk, Hak.
  eexists _, _. split; [reflexivity|]. simpl.
  unfold get_incident, select_incident, mbind, M_bind, mret, M_ret. simpl.
  rewrite lookup_insert_eq. simpl. done.
Qed.

(** *** [assign] and [update_status] on a stored incident *)

(** X4.  For an id in the table [assign] returns [True] and the incident
    then reads back with the new assignee and every other field as before;
    for an id not in the table it returns [False] and changes nothing. *)
Theorem assign_sets_assignee (incident_id assignee : string) (w : World) :
  (∀ inc, (get_incident incident_id w).1 = Return (Some inc) →
     ∃ w',
       assign incident_id assignee w = (Return true, w') ∧
       get_incident incident_id w' =
         (Return
            (Some (Incident.mk (Incident.id inc) (Incident.title inc)
                     (Incident.severity inc) (Incident.status inc) assignee
                     (Incident.services inc) (Incident.timeline inc)
                     (Incident.created_at inc) (Incident.resolved_at inc)
                     (Incident.postmortem inc))),
          w')) ∧
  ((get_incident incident_id w).1 = Return None →
   assign incident_id assignee w = (Return false, w)).
Proof.
  unfold get_incident, select_incident, mbind, M_bind, mret, M_ret. simpl.
  destruct (incidents w !! incident_id) as [r|] eqn:Hr; simpl.
  - split; [|done]. intros inc [= <-].
    eexists. split; [by apply assign_known|]. simpl.
    by rewrite lookup_insert_eq.
  - split; [done|]. intros _. by apply assign_unknown.
Qed.

(** X5.  For an id in the table and any of the five statuses, whatever the
    status stored, [update_status] returns [True] and the incident then
    reads back with the new status and every other field, [resolved_at]
    included, as before. *)
Theorem update_status_sets_status (incident_id status : string) (w : World) :
  status ∈ valid_statuses →
  ∀ inc, (get_incident incident_id w).1 = Return (Some inc) →
    ∃ w',
      update_status incident_id status w = (Return true, w') ∧
      get_incident incident_id w' =
        (Return
           (Some (Incident.mk (Incident.id inc) (Incident.title inc)
                    (Incident.severity inc) status (Incident.assignee inc)
                    (Incident.services inc) (Incident.timeline inc)
                    (Incident.created_at inc) (Incident.resolved_at inc)
                    (Incident.postmortem inc))),
         w').
Proof.
  intros Hs inc.
  unfold get_incident, select_incident, mbind, M_bind, mret, M_ret. simpl.
  destruct (incidents w !! incident_id) as [r|] eqn:Hr; simpl; [|done].
  intros [= <-].
  eexists. split; [by apply update_status_known|]. simpl.
  by rewrite lookup_insert_eq.
Qed.

(** *** Histories *)

Lemma row_step_keeps (n n' : nat) (r : Row) (o' : option Row) :
  row_step n n' (Some r) o' →
  ∃ r',
    o' = Some r' ∧
    col_title r' = col_title r ∧
    col_severity r' = col_severity r ∧
    col_services r' = col_services r ∧
    col_created_at r' = col_created_at r ∧
    col_postmortem r' = col_postmortem r ∧
    col_timeline r `prefix_of` col_timeline r'.
Proof.
  inversion 1; subst; eexists; (split; [reflexivity|]); simpl;
    repeat split; try done.
  by apply prefix_app_r.
Qed.

(** X6.  Whatever calls follow, an incident that is stored stays stored
    under its id with the same title, severity, services, [created_at] and
    [postmortem] column, and its timeline is only ever extended at the
    end. *)
Theorem history_keeps_incidents (cs : list Call) (w : World)
    (k : string) (r : Row) :
  incidents w !! k = Some r →
  ∃ r',
    incidents (run_all cs w) !! k = Some r' ∧
    col_title r' = col_title r ∧
    col_severity r' = col_severity r ∧
    col_services r' = col_services r ∧
    col_created_at r' = col_created_at r ∧
    col_postmortem r' = col_postmortem r ∧
    col_timeline r `prefix_of` col_timeline r'.
Proof.
  revert w r. induction cs as [|c cs IH]; intros w r Hr.
  - exists r. by repeat split.
  - destruct (run_row_step c w k) as [_ Hstep]. rewrite Hr in Hstep.
    destruct (row_step_keeps _ _ _ _ Hstep)
      as (r1 & Hr1 & Ht1 & Hv1 & Hs1 & Hc1 & Hp1 & Hl1).
    destruct (IH (run c w) r1 Hr1) as (r' & Hr' & Ht & Hv & Hs & Hc & Hp & Hl).
    exists r'. split; [exact Hr'|].
    repeat split; try congruence. by etrans.
Qed.

(** X7.  Whatever calls follow, an alert that is stored stays stored,
    unchanged, under its id. *)
Theorem history_keeps_alerts (cs : list Call) (w : World)
    (ak : string) (a : AlertRow) :
  alerts w !! ak = Some a →
  alerts (run_all cs w) !! ak = Some a.
Proof.
  revert w. induction cs as [|c cs IH]; intros w Ha; [done|].
  apply IH.
  destruct (run_alerts c w) as [->|(ak' & a' & _ & _ & Hfree & -> & _)];
    [done|].
  rewrite lookup_insert_ne; [done|]. intros ->. congruence.
Qed.

(** *** Invariants of the reachable states *)

(** X8.  In every state the program can reach, the status of every incident
    is one of the five valid statuses and its [postmortem] column is
    [NULL], so that [get_incident] shows an empty postmortem. *)
Theorem reachable_status_valid (w : World) :
  reachable w →
  ∀ k inc, (get_incident k w).1 = Return (Some inc) →
    Incident.status inc ∈ valid_statuses ∧ Incident.postmortem inc = "".
Proof.
  intros Hreach.
  assert (Hrows : ∀ k r, incidents w !! k = Some r →
            col_status r ∈ valid_statuses ∧ col_postmortem r = None).
  { induction Hreach as [|c w Hw IH]; intros k r Hk; [done|].
    destruct (run_row_step c w k) as [_ Hstep]. rewrite Hk in Hstep.
    inversion Hstep as [o Ho|r0 a Ho|r0 s Hs Ho|r0 e a Hlt Ho|r0 Hlt Ho
                        |t s p l Hlt Hp Ho]; subst; simpl.
    - by eapply IH.
    - by eapply IH.
    - split; [done|]. by eapply IH.
    - by eapply IH.
    - split; [apply list_elem_of_In; simpl; tauto|]. by eapply IH.
    - split; [apply list_elem_of_In; simpl; tauto|done]. }
  intros k inc.
  unfold get_incident, select_incident, mbind, M_bind, mret, M_ret. simpl.
  destruct (incidents w !! k) as [r|] eqn:Hr; simpl; [|done].
  intros [= <-]. simpl. destruct (Hrows k r Hr) as [Hs ->]. done.
Qed.

(** Every alert of a reachable state has its incident. *)
Lemma alerts_linked_to_incidents (w : World) :
  reachable w →
  ∀ ak a, alerts w !! ak = Some a →
    ∃ k r,
      alert_incident_id a = Some k ∧
      incidents w !! k = Some r ∧
      col_title r = "Alert: " +:+ alert_message a ∧
      col_severity r = alert_severity a.
Proof.
  induction 1 as [|c w Hw IH]; intros ak a Ha; [done|].
  assert (Hold : alerts w !! ak = Some a →
            ∃ k r, alert_incident_id a = Some k ∧
                   incidents (run c w) !! k = Some r ∧
                   col_title r = "Alert: " +:+ alert_message a ∧
                   col_severity r = alert_severity a).
  { intros Ha0. destruct (IH ak a Ha0) as (k & r & Hid & Hr & Ht & Hs).
    destruct (run_row_step c w k) as [_ Hstep]. rewrite Hr in Hstep.
    destruct (row_step_keeps _ _ _ _ Hstep)
      as (r1 & Hr1 & Ht1 & Hv1 & _).
    exists k, r1. split; [done|]. split; [done|]. split; congruence. }
  destruct (run_alerts c w)
    as [Heq|(ak' & a' & k & r & Hfree & Heq & Hid & _ & Hr & Ht & Hs)].
  - rewrite Heq in Ha. by apply Hold.
  - rewrite Heq in Ha. destruct (decide (ak = ak')) as [->|Hne].
    + rewrite lookup_insert_eq in Ha. injection Ha as <-. by exists k, r.
    + rewrite lookup_insert_ne in Ha by done. by apply Hold.
Qed.

(** X9.  In every state the program can reach, every alert names an
    incident that is stored, whose severity is the alert's and whose title
    is ["Alert: "] followed by the alert's message. *)
Theorem reachable_alerts_linked (w : World) :
  reachable w →
  ∀ ak a, alerts w !! ak = Some a →
    ∃ k r,
      alert_incident_id a = Some k ∧
      incidents w !! k = Some r ∧
      col_title r = "Alert: " +:+ alert_message a ∧
      col_severity r = alert_severity a.
Proof. apply alerts_linked_to_incidents. Qed.

(** X10.  In every state the program can reach, no two alerts name the
    same incident. *)
Theorem reachable_alerts_apart (w : World) :
  reachable w →
  ∀ ak1 ak2 a1 a2,
    alerts w !! ak1 = Some a1 →
    alerts w !! ak2 = Some a2 →
    alert_incident_id a1 = alert_incident_id a2 →
    ak1 = ak2.
Proof.
  intros Hreach.
  assert (Hlinked : ∀ w0, reachable w0 → ∀ ak a k,
            alerts w0 !! ak = Some a → alert_incident_id a = Some k →
            is_Some (incidents w0 !! k)).
  { intros w0 Hw0 ak a k Ha Hk.
    destruct (alerts_linked_to_incidents w0 Hw0 ak a Ha) as (k' & r & Hk' & Hr & _).
    rewrite Hk in Hk'. injection Hk' as <-. by exists r. }
  induction Hreach as [|c w Hw IH]; intros ak1 ak2 a1 a2 H1 H2 Heq; [done|].
  destruct (run_alerts c w)
    as [Hsame|(ak & a & k & r & Hfree & Hnew & Hid & Hk & _)].
  - rewrite Hsame in H1, H2. by eapply IH.
  - rewrite Hnew in H1, H2.
    destruct (decide (ak1 = ak)) as [->|Hne1];
      destruct (decide (ak2 = ak)) as [->|Hne2]; [done| | |].
    + rewrite lookup_insert_eq in H1. injection H1 as <-.
      rewrite lookup_insert_ne in H2 by done.
      rewrite Hid in Heq. symmetry in Heq.
      destruct (Hlinked w Hw ak2 a2 k H2 Heq) as [r0 Hr0]. congruence.
    + rewrite lookup_insert_eq in H2. injection H2 as <-.
      rewrite lookup_insert_ne in H1 by done.
      rewrite Hid in Heq.
      destruct (Hlinked w Hw ak1 a1 k H1 Heq) as [r0 Hr0]. congruence.
    + rewrite lookup_insert_ne in H1 by done.
      rewrite lookup_insert_ne in H2 by done. by eapply IH.
Qed.

(** *** Invariants under a clock that is never set back *)

Lemma read_before_le (n n' : nat) (t : datetime) :
  (n ≤ n')%nat → read_before n t → read_before n' t.
Proof. intros Hle (i & Hi & ->). exists i. split; [lia|done]. Qed.

Lemma read_before_now (n : nat) (t : datetime) :
  clock_monotone → read_before n t → (t ≤ now_at n)%Z.
Proof. intros Hmono (i & Hi & ->). apply Hmono. lia. Qed.

Lemma row_timed_le (n n' : nat) (r : Row) :
  (n ≤ n')%nat → row_timed n r → row_timed n' r.
Proof.
  intros Hle (Hc & Hr & Ht & Hs). split; [by eapply read_before_le|].
  split; [|split; [|done]].
  - intros t Hrt. destruct (Hr t Hrt) as [Hb Hct].
    split; [by eapply read_before_le|done].
  - eapply Forall_impl; [exact Ht|]. intros ev [Hb Hct].
    split; [by eapply read_before_le|done].
Qed.

Lemma row_step_timed (n n' : nat) (o o' : option Row) :
  clock_monotone →
  (n ≤ n')%nat →
  row_step n n' o o' →
  (∀ r, o = Some r → row_timed n r) →
  ∀ r', o' = Some r' → row_timed n' r'.
Proof.
  intros Hmono Hle Hstep.
  destruct Hstep as [o|r0 a|r0 s Hs|r0 e a Hlt|r0 Hlt|t s p l Hlt Hp];
    intros Hold r' Hr'.
  - apply (row_timed_le n); [done|]. by apply Hold.
  - injection Hr' as <-. apply (row_timed_le n); [done|].
    by apply (Hold r0).
  - injection Hr' as <-. apply (row_timed_le n); [done|].
    by apply (Hold r0).
  - injection Hr' as <-.
    destruct (row_timed_le n n' r0 Hle (Hold r0 eq_refl))
      as (Hc & Hr & Ht & Hsorted).
    destruct (Hold r0 eq_refl) as (Hc0 & _ & Ht0 & _).
    split; [done|]. split; [done|]. simpl. split.
    + apply Forall_app. split; [done|]. apply Forall_singleton. simpl.
      split; [by exists n|]. by apply read_before_now.
    + apply StronglySorted_app_2; [|done|repeat constructor].
      intros ev1 ev2 Hev1 ->%list_elem_of_singleton. simpl.
      apply read_before_now; [done|].
      by eapply (proj1 (Forall_forall _ _) Ht0).
  - injection Hr' as <-.
    destruct (row_timed_le n n' r0 Hle (Hold r0 eq_refl))
      as (Hc & Hr & Ht & Hsorted).
    destruct (Hold r0 eq_refl) as (Hc0 & _).
    split; [done|]. split; [|done]. simpl. intros t [= <-].
    split; [by exists n|]. by apply read_before_now.
  - injection Hr' as <-. split; [by exists n|]. simpl.
    split; [done|]. split; constructor.
Qed.

Lemma reachable_row_timed (w : World) :
  clock_monotone →
  reachable w →
  ∀ k r, incidents w !! k = Some r → row_timed (clock_reads w) r.
Proof.
  intros Hmono. induction 1 as [|c w Hw IH]; intros k r Hk; [done|].
  destruct (run_row_step c w k) as [Hle Hstep].
  eapply row_step_timed; [done|exact Hle|exact Hstep| |exact Hk].
  intros r0 Hr0. by eapply IH.
Qed.

(** X11.  Under a clock that is never set back, in every state the program
    can reach, the [resolved_at] of an incident, when it has one, is not
    before its [created_at]. *)
Theorem reachable_resolved_after_created (w : World) :
  clock_monotone →
  reachable w →
  ∀ k inc t,
    (get_incident k w).1 = Return (Some inc) →
    Incident.resolved_at inc = Some t →
    (Incident.created_at inc ≤ t)%Z.
Proof.
  intros Hmono Hreach k inc t.
  unfold get_incident, select_incident, mbind, M_bind, mret, M_ret. simpl.
  destruct (incidents w !! k) as [r|] eqn:Hr; simpl; [|done].
  intros [= <-]. simpl. intros Ht.
  destruct (reachable_row_timed w Hmono Hreach k r Hr) as (_ & Hres & _).
  by apply Hres.
Qed.

(** X12.  Under a clock that is never set back, in every state the program
    can reach, the timeline of an incident is in the order of its
    timestamps and no entry is before [created_at]. *)
Theorem reachable_timeline_chronological (w : World) :
  clock_monotone →
  reachable w →
  ∀ k inc,
    (get_incident k w).1 = Return (Some inc) →
    StronglySorted (λ a b, (timestamp a ≤ timestamp b)%Z)
                   (Incident.timeline inc) ∧
    Forall (λ ev, (Incident.created_at inc ≤ timestamp ev)%Z)
           (Incident.timeline inc).
Proof.
  intros Hmono Hreach k inc.
  unfold get_incident, select_incident, mbind, M_bind, mret, M_ret. simpl.
  destruct (incidents w !! k) as [r|] eqn:Hr; simpl; [|done].
  intros [= <-]. simpl.
  destruct (reachable_row_timed w Hmono Hreach k r Hr) as (_ & _ & Ht & Hs).
  split; [done|]. eapply Forall_impl; [exact Ht|]. by intros ev [_ ?].
Qed.

(** *** More on [get_mttr] *)

Lemma strftime_s_le (t1 t2 : datetime) :
  (t1 ≤ t2)%Z → (strftime_s t1 ≤ strftime_s t2)%Z.
Proof.
  intros Hle. unfold strftime_s.
  apply Z.div_le_mono; [lia|]. apply Z.div_le_mono; lia.
Qed.

Lemma sum_nonneg (vs : list Q) :
  Forall (λ v, (0 <= v)%Q) vs → (0 <= foldr Qplus 0%Q vs)%Q.
Proof.
  induction 1 as [|v vs Hv _ IH]; simpl; [apply Qle_refl|].
  apply (Qle_trans _ (0 + 0)%Q); [apply Qle_refl|].
  by apply Qplus_le_compat.
Qed.

Lemma sql_avg_nonneg (l : list (option Q)) :
  Forall (λ o, ∀ v, o = Some v → (0 <= v)%Q) l →
  (0 <= default 0%Q (sql_avg l))%Q.
Proof.
  intros Hl. unfold sql_avg.
  assert (Hvs : Forall (λ v, (0 <= v)%Q) (omap (λ x, x) l)).
  { apply Forall_forall. intros v Hv.
    apply list_elem_of_omap in Hv as (o & Ho & ->).
    by apply (proj1 (Forall_forall _ _) Hl (Some v)). }
  destruct (omap (λ x, x) l) as [|v vs]; simpl; [apply Qle_refl|].
  apply Qle_shift_div_l.
  - unfold Qlt. simpl. lia.
  - rewrite Qmult_0_l. by apply (sum_nonneg (v :: vs)).
Qed.

Lemma sql_avg_all_null (l : list (option Q)) :
  Forall (λ o, o = None) l → sql_avg l = None.
Proof.
  intros Hl. unfold sql_avg.
  replace (omap (λ x, x) l) with (@nil Q); [done|].
  symmetry. induction Hl as [|o l -> _ IH]; [done|]. simpl. exact IH.
Qed.

(** X13.  Under a clock that is never set back, in every state the program
    can reach, [get_mttr] returns a number that is not negative, with or
    without a severity. *)
Theorem get_mttr_nonnegative (severity : option string) (w : World) :
  clock_monotone →
  reachable w →
  ∃ q, get_mttr severity w = (Return q, w) ∧ (0 <= q)%Q.
Proof.
  intros Hmono Hreach. eexists. split; [apply get_mttr_run|].
  apply sql_avg_nonneg, Forall_forall. intros o Ho v ->.
  apply list_elem_of_fmap in Ho as ([k r] & Hv & Hkr).
  apply list_elem_of_filter in Hkr as [_ Hkr].
  apply elem_of_map_to_list in Hkr.
  destruct (reachable_row_timed w Hmono Hreach k r Hkr) as (_ & Hres & _).
  simpl in Hv. unfold resolution_minutes in Hv.
  destruct (col_resolved_at r) as [t|] eqn:Ht; [|done].
  simpl in Hv. injection Hv as ->.
  destruct (Hres t eq_refl) as [_ Hle].
  apply Qle_shift_div_l; [done|]. rewrite Qmult_0_l.
  change 0%Q with (inject_Z 0). rewrite <- Zle_Qle.
  pose proof (strftime_s_le _ _ Hle). lia.
Qed.

(** X14.  When no incident with status ["resolved"] has a [resolved_at],
    as after [update_status(id, "resolved")], [get_mttr] returns [0]: such
    incidents do not count. *)
Theorem get_mttr_skips_unstamped (severity : option string) (w : World) :
  (∀ k r, incidents w !! k = Some r →
          col_status r = "resolved" → col_resolved_at r = None) →
  get_mttr severity w = (Return 0%Q, w).
Proof.
  intros Hnull. rewrite get_mttr_run.
  rewrite sql_avg_all_null; [done|].
  apply Forall_forall. intros o Ho.
  apply list_elem_of_fmap in Ho as ([k r] & -> & Hkr).
  apply list_elem_of_filter in Hkr as [[Hs _] Hkr].
  apply elem_of_map_to_list in Hkr.
  simpl. unfold resolution_minutes. by rewrite (Hnull k r Hkr Hs).
Qed.

(** *** [generate_postmortem] *)

Lemma string_app_assoc (s1 s2 s3 : string) :
  (s1 +:+ s2) +:+ s3 = s1 +:+ s2 +:+ s3.
Proof.
  induction s1 as [|c s1 IH]; [done|].
  change (String c ((s1 +:+ s2) +:+ s3) = String c (s1 +:+ s2 +:+ s3)).
  by rewrite IH.
Qed.

Lemma string_app_nil_r (s : string) : s +:+ "" = s.
Proof.
  induction s as [|c s IH]; [done|].
  change (String c (s +:+ "") = String c s). by rewrite IH.
Qed.

(** The lines of a timeline, one after the other. *)
Lemma postmortem_lines_foldl (s : string) (tl : list TimelineEvent) :
  foldl (λ pm ev, pm +:+ postmortem_line ev) s tl =
  s +:+ String.concat "" (postmortem_line <$> tl).
Proof.
  revert s. induction tl as [|ev tl IH]; intros s.
  - simpl. by rewrite string_app_nil_r.
  - simpl. rewrite IH, string_app_assoc. f_equal.
    destruct tl as [|ev' tl]; simpl; [by rewrite string_app_nil_r|done].
Qed.

Lemma generate_postmortem_known (incident_id : string) (r : Row) (w : World) :
  incidents w !! incident_id = Some r →
  generate_postmortem incident_id w =
  (Return (foldl (λ pm ev, pm +:+ postmortem_line ev) (postmortem_summary r)
                 (col_timeline r) +:+ postmortem_sections),
   w).
Proof.
  intros Hr. unfold generate_postmortem, select_incident, mbind, M_bind. simpl.
  by rewrite Hr.
Qed.

(** X15.  [generate_postmortem] changes nothing and never raises.  The
    document it returns is empty exactly when the id is not in the table;
    for an id in the table it is the summary, then one line for each entry
    of the timeline, in the order of the timeline, then the four fixed
    sections. *)
Theorem generate_postmortem_document (incident_id : string) (w : World) :
  ∃ doc,
    generate_postmortem incident_id w = (Return doc, w) ∧
    (doc = "" ↔ (get_incident incident_id w).1 = Return None) ∧
    ∀ r, incidents w !! incident_id = Some r →
      doc = postmortem_summary r +:+
            String.concat "" (postmortem_line <$> col_timeline r) +:+
            postmortem_sections.
Proof.
  unfold get_incident, select_incident, mbind, M_bind, mret, M_ret. simpl.
  destruct (incidents w !! incident_id) as [r|] eqn:Hr; simpl.
  - eexists. split; [by apply generate_postmortem_known|].
    rewrite postmortem_lines_foldl, string_app_assoc.
    split; [|by intros r0 [= <-]].
    split; [|done]. intros Hdoc. exfalso. revert Hdoc.
    unfold postmortem_summary.
    rewrite (string_app_assoc "# Incident Postmortem"). discriminate.
  - exists "". split.
    + unfold generate_postmortem, select_incident, mbind, M_bind. simpl.
      by rewrite Hr.
    + split; [done|]. intros r0. discriminate.
Qed.

(** X16.  After [add_timeline_event] on an incident in the table, the
    document of [generate_postmortem] is the document from before with one
    more line, for the new entry, between the lines of the timeline and the
    fixed sections. *)
Theorem generate_postmortem_after_event (incident_id event author : string)
    (w : World) :
  is_Some (incidents w !! incident_id) →
  ∃ body w',
    generate_postmortem incident_id w =
      (Return (body +:+ postmortem_sections), w) ∧
    add_timeline_event incident_id event author w = (Return true, w') ∧
    generate_postmortem incident_id w' =
      (Return (body +:+
               postmortem_line (mkEvent (now_at (clock_reads w)) event author)
               +:+ postmortem_sections),
       w').
Proof.
  intros [r Hr]. eexists _, _.
  split; [by apply generate_postmortem_known|].
  split; [by apply add_timeline_event_known|].
  erewrite generate_postmortem_known; [|simpl; apply lookup_insert_eq].
  simpl. rewrite foldl_app. simpl. by rewrite string_app_assoc.
Qed.

(** *** The week of [oncall_schedule] *)

Lemma weekday_range (t : datetime) : (0 ≤ weekday t < 7)%Z.
Proof. unfold weekday. apply Z.mod_pos_bound. lia. Qed.

(** X17.  With the five members of [TEAM] and seven days of the week,
    [oncall_schedule] (and so the first assignee of a new incident) is
    alexa on Mondays and Saturdays, alice on Tuesdays and Sundays, octavia
    on Wednesdays, aria on Thursdays and shellfish on Fridays. *)
Theorem oncall_schedule_week (w : World) :
  ∃ p,
    (oncall_schedule w).1 = Return p ∧
    p = match weekday (now_at (clock_reads w)) with
        | 0 | 5 => "alexa"
        | 1 | 6 => "alice"
        | 2 => "octavia"
        | 3 => "aria"
        | _ => "shellfish"
        end.
Proof.
  rewrite oncall_schedule_run. simpl.
  pose proof (weekday_range (now_at (clock_reads w))) as Hrange.
  assert (Hd : ∃ d, weekday (now_at (clock_reads w)) = d ∧
                    (d = 0 ∨ d = 1 ∨ d = 2 ∨ d = 3 ∨ d = 4 ∨ d = 5 ∨ d = 6)%Z).
  { eexists. split; [reflexivity|lia]. }
  destruct Hd as (d & -> & Hd).
  destruct Hd as [->|[->|[->|[->|[->|[->| ->]]]]]]; by eexists.
Qed.

(** *** The active list after a call *)

Lemma get_active_incidents_elem (w : World) :
  ∃ l,
    get_active_incidents w = (Return l, w) ∧
    ∀ inc, inc ∈ l ↔
      ∃ r, incidents w !! Incident.id inc = Some r ∧
           col_status r ≠ "resolved" ∧
           inc = to_incident (Incident.id inc) r.
Proof.
  destruct (select_active_rows w) as (rows & Hrun & Hperm & _).
  exists ((λ kr, to_incident kr.1 kr.2) <$> rows). split.
  { unfold get_active_incidents, mbind, M_bind. by rewrite Hrun. }
  intros inc. rewrite list_elem_of_fmap. split.
  - intros ([k r] & -> & Hkr). rewrite Hperm in Hkr.
    apply list_elem_of_filter in Hkr as [Hs Hkr].
    apply elem_of_map_to_list in Hkr. by exists r.
  - intros (r & Hk & Hs & Hinc). exists (Incident.id inc, r).
    split; [done|]. rewrite Hperm. apply list_elem_of_filter.
    split; [done|]. by apply elem_of_map_to_list.
Qed.

(** X18.  After [resolve] of an incident in the table, the active list has
    no incident with that id, and the incidents with another id are on the
    list exactly when they were before. *)
Theorem resolve_leaves_active_list (incident_id notes : string) (w : World) :
  is_Some (incidents w !! incident_id) →
  ∃ before w' after,
    get_active_incidents w = (Return before, w) ∧
    resolve incident_id notes w = (Return true, w') ∧
    get_active_incidents w' = (Return after, w') ∧
    (∀ inc, inc ∈ after → Incident.id inc ≠ incident_id) ∧
    (∀ inc, Incident.id inc ≠ incident_id → inc ∈ after ↔ inc ∈ before).
Proof.
  intros [r Hr].
  destruct (get_active_incidents_elem w) as (before & Hbefore & Hin).
  destruct (get_active_incidents_elem (resolve incident_id notes w).2)
    as (after & Hafter & Hin').
  rewrite (resolve_known _ _ _ _ Hr) in Hafter, Hin'. simpl in Hin'.
  eexists before, _, after. split; [done|].
  split; [by apply resolve_known|]. split; [exact Hafter|]. split.
  - intros inc Hinc Hid. apply Hin' in Hinc as (r' & Hr' & Hs & _).
    rewrite Hid, lookup_insert_eq in Hr'. injection Hr' as <-. done.
  - intros inc Hid. rewrite Hin, Hin'. by rewrite lookup_insert_ne.
Qed.

(** X19.  [update_status] with a valid status other than ["resolved"] puts
    an incident of the table on the active list, whatever its status was:
    a resolved incident is reopened, and keeps its [resolved_at]. *)
Theorem update_status_reopens (incident_id status : string) (w : World) :
  status ∈ valid_statuses →
  status ≠ "resolved" →
  ∀ inc, (get_incident incident_id w).1 = Return (Some inc) →
    ∃ w' active inc',
      update_status incident_id status w = (Return true, w') ∧
      get_active_incidents w' = (Return active, w') ∧
      inc' ∈ active ∧
      Incident.id inc' = incident_id ∧
      Incident.status inc' = status ∧
      Incident.resolved_at inc' = Incident.resolved_at inc.
Proof.
  intros Hs Hne inc.
  unfold get_incident, select_incident, mbind, M_bind, mret, M_ret. simpl.
  destruct (incidents w !! incident_id) as [r|] eqn:Hr; simpl; [|done].
  intros [= <-].
  destruct (get_active_incidents_elem (update_status incident_id status w).2)
    as (active & Hactive & Hin).
  rewrite (update_status_known _ _ _ _ Hs Hr) in Hactive, Hin. simpl in Hin.
  eexists _, active, (to_incident incident_id (set_status status r)).
  split; [by apply update_status_known|]. split; [exact Hactive|].
  split; [|done].
  apply Hin. exists (set_status status r). simpl.
  by rewrite lookup_insert_eq.
Qed.

(** *** Histories from the empty database *)

Lemma reachable_run_all (cs : list Call) (w : World) :
  reachable w → reachable (run_all cs w).
Proof.
  revert w. induction cs as [|c cs IH]; intros w Hw; [done|].
  apply IH. by apply reachable_run.
Qed.

(** X20.  The incident that [create_incident] returns is on the active list
    of the state it leaves. *)
Theorem create_incident_active (title severity : string)
    (services : option (list string)) (w : World) :
  incidents w !! String.substring 0 8 (uuid_at (uuid_draws w)) = None →
  ∃ inc w' active,
    create_incident title severity services w = (Return inc, w') ∧
    get_active_incidents w' = (Return active, w') ∧
    inc ∈ active.
Proof.
  intros Hfresh.
  destruct (create_incident_run title severity services w)
    as (p & _ & _ & Hrun).
  rewrite Hfresh in Hrun.
  destruct (get_active_incidents_elem (create_incident title severity services w).2)
    as (active & Hactive & Hin).
  rewrite Hrun in Hactive, Hin. simpl in Hin.
  eexists _, _, active. split; [exact Hrun|]. split; [exact Hactive|].
  apply Hin. eexists. simpl. rewrite lookup_insert_eq.
  split; [reflexivity|]. by split.
Qed.
End IncidentManager.

(** ** The concrete states are states of the program *)

Lemma demo_created_run :
  run demo_clock demo_uuid (CreateIncident "db down" "P1" (Some ["api"]))
      init_world = demo_created.
Proof. vm_compute. reflexivity. Qed.

Lemma demo_status_resolved_run :
  run demo_clock demo_uuid (UpdateStatus "3f2a9c1e" "resolved") demo_created =
  demo_status_resolved.
Proof. vm_compute. reflexivity. Qed.

Lemma demo_resolved_run :
  run demo_clock demo_uuid (Resolve "3f2a9c1e" "") demo_created = demo_resolved.
Proof. vm_compute. reflexivity. Qed.

Lemma tenths_resolved_run :
  run tenths_clock demo_uuid (Resolve "3f2a9c1e" "")
    (run tenths_clock demo_uuid (CreateIncident "db down" "P1" (Some ["api"]))
         init_world) = tenths_resolved.
Proof. vm_compute. reflexivity. Qed.

Lemma demo_created_reachable : reachable demo_clock demo_uuid demo_created.
Proof. rewrite <- demo_created_run. apply reachable_run, reachable_init. Qed.

Lemma demo_clock_mono (i j : nat) :
  (i ≤ j)%nat → (demo_clock i ≤ demo_clock j)%Z.
Proof. unfold demo_clock. lia. Qed.

Lemma bogus_invalid : "bogus" ∉ valid_statuses.
Proof. apply (bool_decide_unpack _). vm_compute. exact I. Qed.

Lemma resolved_valid : "resolved" ∈ valid_statuses.
Proof. apply (bool_decide_unpack _). vm_compute. exact I. Qed.

(** ** The theorems at concrete inputs *)

Lemma update_status_invalid_witness :
  update_status "3f2a9c1e" "bogus" demo_created = (Return false, demo_created).
Proof.
  exact (update_status_invalid "3f2a9c1e" "bogus" demo_created bogus_invalid).
Defined.

Lemma update_status_false_twice_witness :
  update_status "3f2a9c1e" "bogus" demo_created = (Return false, demo_created) ∧
  update_status "0badc0de" "resolved" demo_created = (Return false, demo_created).
Proof.
  apply (update_status_false_twice "3f2a9c1e" "bogus" "0badc0de" "resolved"
           demo_created bogus_invalid resolved_valid).
  vm_compute. reflexivity.
Defined.

Lemma create_incident_new_witness :
  ∃ inc w',
    create_incident demo_clock demo_uuid "db down" "P1" (Some ["api"])
      init_world = (Return inc, w') ∧
    Incident.id inc = "3f2a9c1e" ∧
    Incident.status inc = "new" ∧
    Incident.assignee inc = "alexa" ∧
    Incident.services inc = ["api"] ∧
    get_incident "3f2a9c1e" w' = (Return (Some inc), w').
Proof.
  destruct (create_incident_new demo_clock demo_uuid "db down" "P1"
              (Some ["api"]) init_world)
    as (inc & w' & Hrun & Hid & _ & _ & Hstatus & _ & _ & _ & Hcall & _ & Hsvc
        & _ & _ & Hget & _).
  { vm_compute. reflexivity. }
  exists inc, w'. rewrite Hid in Hget.
  split; [exact Hrun|]. split; [exact Hid|]. split; [exact Hstatus|].
  split; [|split; [exact Hsvc|exact Hget]].
  vm_compute in Hcall. by injection Hcall.
Defined.

Lemma oncall_schedule_day_of_week_witness :
  oncall_schedule demo_clock init_world = (Return "alexa", mkWorld ∅ ∅ 1 0) ∧
  (oncall_schedule demo_clock demo_created).1 = Return "alexa".
Proof.
  destruct (oncall_schedule_day_of_week demo_clock init_world demo_created)
    as (p & Hp & H1 & H2).
  { left. vm_compute. reflexivity. }
  vm_compute in Hp. injection Hp as <-.
  split; [exact H1|]. by rewrite H2.
Defined.

Lemma add_timeline_event_appends_witness :
  ∃ w' entries,
    add_timeline_events demo_clock "3f2a9c1e"
      [("paged", "alice"); ("mitigated", "octavia")] demo_created =
      (Return [true; true], w') ∧
    incidents w' !! "3f2a9c1e" = Some (set_timeline entries demo_row) ∧
    length entries = 2%nat ∧
    entries !! 1%nat = Some (mkEvent (demo_clock 3) "mitigated" "octavia").
Proof.
  destruct (proj2 (proj2 (add_timeline_event_appends demo_clock "3f2a9c1e"
                             demo_created))
              demo_row ltac:(vm_compute; reflexivity)
              [("paged", "alice"); ("mitigated", "octavia")])
    as (results & w' & entries & Hrun & Hall & Hlen & Hrow & Hn & Hat & _).
  exists w', entries.
  assert (Hresults : results = [true; true]).
  { destruct results as [|b1 [|b2 [|b3 results]]]; try discriminate Hlen.
    apply Forall_cons in Hall as [-> Hall].
    apply Forall_cons in Hall as [-> _]. reflexivity. }
  rewrite Hresults in Hrun.
  split; [exact Hrun|]. split; [exact Hrow|]. split; [exact Hn|].
  exact (Hat 1%nat "mitigated" "octavia" eq_refl).
Defined.

Lemma updates_keep_identity_witness :
  is_update (Assign "3f2a9c1e" "aria") ∧
  ∃ inc',
    (get_incident "3f2a9c1e"
       (run demo_clock demo_uuid (Assign "3f2a9c1e" "aria") demo_created)).1 =
      Return (Some inc') ∧
    Incident.title inc' = "db down" ∧
    Incident.created_at inc' = 1704103200000000 ∧
    Incident.services inc' = ["api"].
Proof.
  split; [exact I|].
  pose proof (proj2 (updates_keep_identity demo_clock demo_uuid
                       (Assign "3f2a9c1e" "aria") demo_created I) "3f2a9c1e")
    as H.
  vm_compute in H. destruct H as (inc' & Hget & _ & Ht & Hc & Hs & _).
  exists inc'. split; [|split; [exact Ht|split; [exact Hc|exact Hs]]].
  vm_compute. exact Hget.
Defined.

Lemma resolve_stamps_witness :
  ∃ w' inc,
    resolve demo_clock "3f2a9c1e" "" demo_created = (Return true, w') ∧
    get_incident "3f2a9c1e" w' = (Return (Some inc), w') ∧
    Incident.status inc = "resolved" ∧
    Incident.resolved_at inc = Some (demo_clock 2) ∧
    (Incident.created_at inc ≤ demo_clock 2)%Z.
Proof.
  destruct (proj1 (resolve_stamps demo_clock demo_uuid "3f2a9c1e" ""
                     demo_created)
              demo_row ltac:(vm_compute; reflexivity))
    as (w' & inc & Hrun & Hget & Hs & Hr & _ & Hle).
  exists w', inc. do 4 (split; [done|]).
  exact (Hle demo_clock_mono demo_created_reachable).
Defined.

Lemma get_mttr_whole_seconds_witness :
  ∃ q,
    get_mttr None demo_resolved = (Return q, demo_resolved) ∧
    (q == elapsed_minutes 1704103200000000 1704103202000000)%Q.
Proof.
  destruct (proj2 (proj2 (get_mttr_whole_seconds None demo_resolved))
              "3f2a9c1e"
              (set_status_resolved_at "resolved" 1704103202000000 demo_row)
              1704103202000000)
    as (q & Hrun & _ & Hq).
  - vm_compute. reflexivity.
  - vm_compute. split; [reflexivity|exact I].
  - intros k' r' Hk' _. unfold demo_resolved in Hk'. simpl in Hk'.
    apply lookup_singleton_Some in Hk' as [Hk' _]. done.
  - reflexivity.
  - exists q. split; [exact Hrun|]. apply Hq; vm_compute; reflexivity.
Defined.

(** ** Where the program and the specification part *)

(** C1.  [update_status] writes the status ["resolved"] without a
    [resolved_at]: after [create_incident] and
    [update_status(id, "resolved")] the incident reads back as resolved with
    no [resolved_at], so the invariant that held after [create_incident] is
    lost, while [resolve] on the same state stamps [resolved_at]. *)
Theorem update_status_resolved_no_resolved_at :
  reachable demo_clock demo_uuid demo_created ∧
  consistent demo_created ∧
  update_status "3f2a9c1e" "resolved" demo_created =
    (Return true, demo_status_resolved) ∧
  get_incident "3f2a9c1e" demo_status_resolved =
    (Return
       (Some (Incident.mk "3f2a9c1e" "db down" "P1" "resolved" "alexa" ["api"]
                          [] 1704103200000000 None "")),
     demo_status_resolved) ∧
  ¬ consistent demo_status_resolved ∧
  resolve demo_clock "3f2a9c1e" "" demo_created = (Return true, demo_resolved) ∧
  consistent demo_resolved.
Proof.
  split; [exact demo_created_reachable|].
  split.
  { intros k r Hk. unfold demo_created in Hk. simpl in Hk.
    apply lookup_singleton_Some in Hk as [_ <-].
    split; [by intros [? ?]|done]. }
  split; [vm_compute; reflexivity|].
  split; [vm_compute; reflexivity|].
  split.
  { intros Hc.
    destruct (proj2 (Hc "3f2a9c1e" (set_status "resolved" demo_row)
                        ltac:(vm_compute; reflexivity)) eq_refl)
      as [t Ht].
    discriminate Ht. }
  split; [vm_compute; reflexivity|].
  intros k r Hk. unfold demo_resolved in Hk. simpl in Hk.
  apply lookup_singleton_Some in Hk as [_ <-].
  split; [done|by eexists].
Qed.

(** C3, as the specification has it, fails: [create_incident] reads the
    clock at 23:59:59.999999 on a Monday for [created_at], and
    [oncall_schedule] reads it again just after midnight; the incident is
    created on Monday, whose on-call person is alexa, and is assigned to
    alice, the on-call person of Tuesday. *)
Lemma create_incident_across_midnight :
  ∃ inc w',
    create_incident midnight_clock demo_uuid "db down" "P1" (Some ["api"])
      init_world = (Return inc, w') ∧
    Incident.created_at inc = 1704153599999999 ∧
    weekday (Incident.created_at inc) = 0 ∧
    roster_at TEAM (weekday (Incident.created_at inc)) = Return "alexa" ∧
    Incident.assignee inc = "alice" ∧
    Incident.assignee inc ≠ "alexa".
Proof.
  eexists _, _. split; [vm_compute; reflexivity|]. simpl.
  do 4 (split; [vm_compute; reflexivity|]). discriminate.
Qed.

(** C4, as the specification has it, fails: under a local clock that is set
    back one hour between the creation of an incident and its [resolve],
    [resolve] returns [True] and the incident then reads back with a
    [resolved_at] that is before its [created_at]. *)
Lemma resolve_before_created :
  reachable fallback_clock demo_uuid fallback_resolved ∧
  resolve fallback_clock "3f2a9c1e" ""
    (run fallback_clock demo_uuid
         (CreateIncident "db down" "P1" (Some ["api"])) init_world) =
    (Return true, fallback_resolved) ∧
  get_incident "3f2a9c1e" fallback_resolved =
    (Return
       (Some (Incident.mk "3f2a9c1e" "db down" "P1" "resolved" "alice" ["api"]
                          [] 1730599198000000 (Some 1730595600000000) "")),
     fallback_resolved) ∧
  (1730595600000000 < 1730599198000000)%Z.
Proof.
  assert (Hrun : run fallback_clock demo_uuid (Resolve "3f2a9c1e" "")
                   (run fallback_clock demo_uuid
                        (CreateIncident "db down" "P1" (Some ["api"]))
                        init_world) = fallback_resolved)
    by (vm_compute; reflexivity).
  split.
  { rewrite <- Hrun. do 2 apply reachable_run. apply reachable_init. }
  split; [vm_compute; reflexivity|].
  split; [vm_compute; reflexivity|]. lia.
Qed.

(** C5, as the specification has it, fails: under a clock with fractions of
    a second the only incident is created at 10:00:00.9 and resolved at
    10:00:01.1; two tenths of a second, a three-hundredth of a minute, have
    elapsed, and [get_mttr] returns a sixtieth of a minute. *)
Lemma get_mttr_not_elapsed_minutes :
  reachable tenths_clock demo_uuid tenths_resolved ∧
  incident_rows tenths_resolved = [("3f2a9c1e", tenths_row)] ∧
  col_status tenths_row = "resolved" ∧
  col_created_at tenths_row = 1704103200900000 ∧
  col_resolved_at tenths_row = Some 1704103201100000 ∧
  ∃ q,
    get_mttr None tenths_resolved = (Return q, tenths_resolved) ∧
    (q == 1 # 60)%Q ∧
    (elapsed_minutes 1704103200900000 1704103201100000 == 1 # 300)%Q ∧
    ¬ (q == elapsed_minutes 1704103200900000 1704103201100000)%Q.
Proof.
  split.
  { rewrite <- tenths_resolved_run. do 2 apply reachable_run.
    apply reachable_init. }
  split; [vm_compute; reflexivity|].
  do 3 (split; [reflexivity|]).
  eexists. split; [vm_compute; reflexivity|].
  split; [vm_compute; reflexivity|].
  split; [vm_compute; reflexivity|].
  vm_compute. discriminate.
Qed.

(** ** The further properties at concrete inputs *)

Lemma demo_alerted_run :
  run demo_clock prefix_uuid (AutoCreateFromAlert "monitor-x" "disk full" "P2")
      init_world = demo_alerted.
Proof. vm_compute. reflexivity. Qed.

Lemma demo_alerted_reachable : reachable demo_clock prefix_uuid demo_alerted.
Proof. rewrite <- demo_alerted_run. apply reachable_run, reachable_init. Qed.

Lemma demo_annotated_run :
  run_all demo_clock demo_uuid
    [AddTimelineEvent "3f2a9c1e" "paged" "alice";
     AddTimelineEvent "3f2a9c1e" "mitigated" "octavia"] demo_created =
  demo_annotated.
Proof. vm_compute. reflexivity. Qed.

Lemma demo_annotated_reachable : reachable demo_clock demo_uuid demo_annotated.
Proof.
  rewrite <- demo_annotated_run.
  apply reachable_run_all, demo_created_reachable.
Qed.

Lemma demo_resolved_reachable : reachable demo_clock demo_uuid demo_resolved.
Proof.
  rewrite <- demo_resolved_run. apply reachable_run, demo_created_reachable.
Qed.

Lemma create_incident_taken_witness :
  ∃ w',
    create_incident demo_clock stuck_uuid "cache down" "P3" None demo_created =
      (Raise IntegrityError, w') ∧
    incidents w' = incidents demo_created.
Proof.
  destruct (create_incident_taken demo_clock stuck_uuid "cache down" "P3" None
              demo_created)
    as (w' & Hrun & Hinc & _).
  { exists demo_row. vm_compute. reflexivity. }
  by exists w'.
Defined.

Lemma auto_create_from_alert_links_witness :
  ∃ inc w',
    auto_create_from_alert demo_clock demo_uuid "monitor-x" "disk full" "P2"
      init_world = (Return inc, w') ∧
    Incident.id inc = "3f2a9c1e" ∧
    Incident.title inc = "Alert: disk full" ∧
    alerts w' !! "a81d04c7" =
      Some (mkAlertRow "monitor-x" "disk full" "P2" 1704103202000000
                       (Some "3f2a9c1e")).
Proof.
  destruct (auto_create_from_alert_links demo_clock demo_uuid
              "monitor-x" "disk full" "P2" init_world)
    as (inc & w' & t & Hrun & Hid & Ht & _ & _ & _ & _ & _ & Ha & _).
  { vm_compute. reflexivity. }
  { vm_compute. reflexivity. }
  exists inc, w'. split; [exact Hrun|]. split; [exact Hid|].
  split; [exact Ht|].
  assert (Hw' : w' = run demo_clock demo_uuid
                       (AutoCreateFromAlert "monitor-x" "disk full" "P2")
                       init_world).
  { unfold run. by rewrite Hrun. }
  rewrite Hw'. vm_compute. reflexivity.
Defined.

Lemma auto_create_from_alert_alert_taken_witness :
  ∃ w' inc,
    auto_create_from_alert demo_clock prefix_uuid "monitor-y" "cpu hot" "P3"
      demo_alerted = (Raise IntegrityError, w') ∧
    get_incident "c05e7b92" w' = (Return (Some inc), w') ∧
    Incident.title inc = "Alert: cpu hot" ∧
    alerts w' = alerts demo_alerted.
Proof.
  destruct (auto_create_from_alert_alert_taken demo_clock prefix_uuid
              "monitor-y" "cpu hot" "P3" demo_alerted)
    as (w' & inc & Hrun & Hget & Ht & _ & Ha).
  { vm_compute. reflexivity. }
  { exists demo_alert_row. vm_compute. reflexivity. }
  by exists w', inc.
Defined.

Lemma assign_sets_assignee_witness :
  ∃ w',
    assign "3f2a9c1e" "aria" demo_created = (Return true, w') ∧
    get_incident "3f2a9c1e" w' =
      (Return
         (Some (Incident.mk "3f2a9c1e" "db down" "P1" "new" "aria" ["api"] []
                            1704103200000000 None "")),
       w').
Proof.
  apply (proj1 (assign_sets_assignee "3f2a9c1e" "aria" demo_created)
           (Incident.mk "3f2a9c1e" "db down" "P1" "new" "alexa" ["api"] []
                        1704103200000000 None "")).
  vm_compute. reflexivity.
Defined.

Lemma update_status_sets_status_witness :
  ∃ w',
    update_status "3f2a9c1e" "monitoring" demo_resolved = (Return true, w') ∧
    get_incident "3f2a9c1e" w' =
      (Return
         (Some (Incident.mk "3f2a9c1e" "db down" "P1" "monitoring" "alexa"
                            ["api"] [] 1704103200000000
                            (Some 1704103202000000) "")),
       w').
Proof.
  apply (update_status_sets_status "3f2a9c1e" "monitoring" demo_resolved
           ltac:(apply (bool_decide_unpack _); vm_compute; exact I)
           (Incident.mk "3f2a9c1e" "db down" "P1" "resolved" "alexa" ["api"] []
                        1704103200000000 (Some 1704103202000000) "")).
  vm_compute. reflexivity.
Defined.

Lemma history_keeps_incidents_witness :
  ∃ r',
    incidents
      (run_all demo_clock demo_uuid
         [AddTimelineEvent "3f2a9c1e" "paged" "alice"; Assign "3f2a9c1e" "aria";
          Resolve "3f2a9c1e" ""] demo_created) !! "3f2a9c1e" = Some r' ∧
    col_title r' = "db down" ∧
    col_created_at r' = 1704103200000000.
Proof.
  destruct (history_keeps_incidents demo_clock demo_uuid
              [AddTimelineEvent "3f2a9c1e" "paged" "alice";
               Assign "3f2a9c1e" "aria"; Resolve "3f2a9c1e" ""]
              demo_created "3f2a9c1e" demo_row)
    as (r' & Hr' & Ht & _ & _ & Hc & _).
  { vm_compute. reflexivity. }
  by exists r'.
Defined.

Lemma history_keeps_alerts_witness :
  alerts
    (run_all demo_clock prefix_uuid
       [AutoCreateFromAlert "monitor-y" "cpu hot" "P3"; Resolve "3f2a9c1e" ""]
       demo_alerted) !! "a81d04c7" = Some demo_alert_row.
Proof.
  apply (history_keeps_alerts demo_clock prefix_uuid). vm_compute. reflexivity.
Defined.

Lemma reachable_status_valid_witness :
  Incident.status
    (Incident.mk "3f2a9c1e" "db down" "P1" "resolved" "alexa" ["api"] []
                 1704103200000000 (Some 1704103202000000) "") ∈ valid_statuses.
Proof.
  apply (reachable_status_valid demo_clock demo_uuid demo_resolved
           demo_resolved_reachable "3f2a9c1e").
  vm_compute. reflexivity.
Defined.

Lemma reachable_alerts_linked_witness :
  ∃ k r,
    alert_incident_id demo_alert_row = Some k ∧
    incidents demo_alerted !! k = Some r ∧
    col_title r = "Alert: " +:+ alert_message demo_alert_row ∧
    col_severity r = alert_severity demo_alert_row.
Proof.
  apply (reachable_alerts_linked demo_clock prefix_uuid demo_alerted
           demo_alerted_reachable "a81d04c7").
  vm_compute. reflexivity.
Defined.

Lemma reachable_resolved_after_created_witness :
  (1704103200000000 ≤ 1704103202000000)%Z.
Proof.
  apply (reachable_resolved_after_created demo_clock demo_uuid demo_resolved
           demo_clock_mono demo_resolved_reachable "3f2a9c1e"
           (Incident.mk "3f2a9c1e" "db down" "P1" "resolved" "alexa" ["api"] []
                        1704103200000000 (Some 1704103202000000) "")).
  - vm_compute. reflexivity.
  - reflexivity.
Defined.

Lemma reachable_timeline_chronological_witness :
  StronglySorted (λ a b, (timestamp a ≤ timestamp b)%Z)
    [mkEvent 1704103202000000 "paged" "alice";
     mkEvent 1704103203000000 "mitigated" "octavia"].
Proof.
  apply (reachable_timeline_chronological demo_clock demo_uuid demo_annotated
           demo_clock_mono demo_annotated_reachable "3f2a9c1e"
           (Incident.mk "3f2a9c1e" "db down" "P1" "new" "alexa" ["api"]
              [mkEvent 1704103202000000 "paged" "alice";
               mkEvent 1704103203000000 "mitigated" "octavia"]
              1704103200000000 None "")).
  vm_compute. reflexivity.
Defined.

Lemma get_mttr_nonnegative_witness :
  ∃ q, get_mttr (Some "P1") demo_resolved = (Return q, demo_resolved) ∧
       (0 <= q)%Q.
Proof.
  exact (get_mttr_nonnegative demo_clock demo_uuid (Some "P1") demo_resolved
           demo_clock_mono demo_resolved_reachable).
Defined.

Lemma get_mttr_skips_unstamped_witness :
  get_mttr None demo_status_resolved = (Return 0%Q, demo_status_resolved).
Proof.
  apply get_mttr_skips_unstamped. intros k r Hk _.
  unfold demo_status_resolved in Hk. simpl in Hk.
  apply lookup_singleton_Some in Hk as [_ <-]. reflexivity.
Defined.

Lemma generate_postmortem_document_witness :
  ∃ doc,
    generate_postmortem iso8601 "3f2a9c1e" demo_annotated =
      (Return doc, demo_annotated) ∧
    doc ≠ "" ∧
    doc = postmortem_summary iso8601 demo_row +:+
          postmortem_line iso8601 (mkEvent 1704103202000000 "paged" "alice") +:+
          postmortem_line iso8601
            (mkEvent 1704103203000000 "mitigated" "octavia") +:+
          postmortem_sections.
Proof.
  destruct (generate_postmortem_document iso8601 "3f2a9c1e" demo_annotated)
    as (doc & Hrun & Hempty & Hdoc).
  exists doc. split; [exact Hrun|]. split.
  - intros Hnil. apply Hempty in Hnil. vm_compute in Hnil. discriminate Hnil.
  - rewrite (Hdoc _ ltac:(vm_compute; reflexivity)). vm_compute. reflexivity.
Defined.

Lemma generate_postmortem_after_event_witness :
  ∃ body w',
    generate_postmortem iso8601 "3f2a9c1e" demo_created =
      (Return (body +:+ postmortem_sections), demo_created) ∧
    generate_postmortem iso8601 "3f2a9c1e" w' =
      (Return (body +:+
               postmortem_line iso8601
                 (mkEvent (demo_clock 2) "paged" "alice") +:+
               postmortem_sections),
       w').
Proof.
  destruct (generate_postmortem_after_event demo_clock iso8601
              "3f2a9c1e" "paged" "alice" demo_created)
    as (body & w' & Hbefore & _ & Hafter).
  { exists demo_row. vm_compute. reflexivity. }
  by exists body, w'.
Defined.

Lemma resolve_leaves_active_list_witness :
  ∃ w' after,
    resolve demo_clock "3f2a9c1e" "" demo_created = (Return true, w') ∧
    get_active_incidents w' = (Return after, w') ∧
    ∀ inc, inc ∈ after → Incident.id inc ≠ "3f2a9c1e".
Proof.
  destruct (resolve_leaves_active_list demo_clock "3f2a9c1e" "" demo_created)
    as (before & w' & after & _ & Hrun & Hafter & Hout & _).
  { exists demo_row. vm_compute. reflexivity. }
  by exists w', after.
Defined.

Lemma update_status_reopens_witness :
  ∃ w' active inc',
    update_status "3f2a9c1e" "investigating" demo_resolved = (Return true, w') ∧
    get_active_incidents w' = (Return active, w') ∧
    inc' ∈ active ∧
    Incident.status inc' = "investigating" ∧
    Incident.resolved_at inc' = Some 1704103202000000.
Proof.
  destruct (update_status_reopens "3f2a9c1e" "investigating" demo_resolved
              ltac:(apply (bool_decide_unpack _); vm_compute; exact I)
              ltac:(discriminate)
              (Incident.mk "3f2a9c1e" "db down" "P1" "resolved" "alexa" ["api"]
                           [] 1704103200000000 (Some 1704103202000000) ""))
    as (w' & active & inc' & Hrun & Hactive & Hin & _ & Hs & Hr).
  { vm_compute. reflexivity. }
  by exists w', active, inc'.
Defined.

Lemma reachable_alerts_apart_witness : "a81d04c7" = "a81d04c7".
Proof.
  apply (reachable_alerts_apart demo_clock prefix_uuid demo_alerted
           demo_alerted_reachable "a81d04c7" "a81d04c7"
           demo_alert_row demo_alert_row).
  - vm_compute. reflexivity.
  - vm_compute. reflexivity.
  - reflexivity.
Defined.

Lemma create_incident_active_witness :
  ∃ inc w' active,
    create_incident demo_clock demo_uuid "db down" "P1" (Some ["api"])
      init_world = (Return inc, w') ∧
    get_active_incidents w' = (Return active, w') ∧
    inc ∈ active.
Proof.
  apply (create_incident_active demo_clock demo_uuid). vm_compute. reflexivity.
Defined.
